(** * The main-process IPC module of editor-framework ([lib/main/ipc.js])

    A shallow embedding of [ipc.js] and the proofs of its routing and
    request/reply properties.

    The module keeps two pieces of private state, [_nextSessionId] and
    [_replyCallbacks], and talks to the outside through Electron's
    [ipcMain] emitter, the windows' [sendToPage], a renderer's
    [webContents.send] and the [Console] diagnostics.  Every function of
    the file is a state transformer over [State]; what leaves the module
    is appended to a trace of [event]s.

    [ipcMain.emit] is synchronous, so listeners (those the file registers
    itself, and the application's) run inside the call and may call back
    into the module.  Application code is a tree of API calls ([prog]); the
    interpreter [run] is indexed by a recursion budget that stands for the
    JavaScript call stack.

    What the model takes for granted: numbers are integers; application
    code does not throw by itself (an exception comes from a [TypeError]
    at one of the places marked below, or from the exhausted budget); the
    windows and panels do not change during a run. *)

From stdpp Require Import gmap strings list.
From Stdlib Require Import ZArith Lia Sorted.

Set Warnings "-register-all".

Open Scope string_scope.
Open Scope list_scope.
Open Scope Z_scope.

(** ** JavaScript values *)

(** The sender of an IPC event: the main process itself (the synthetic
    event built by [_main2main]) or the [webContents] of a renderer. *)
Inductive sender :=
| SMain
| SRenderer (webContents : nat).

(** A function value is either a function of the application (known by an
    index into the environment) or the [_replyCallback] closure of one
    inbound request (known by the index of its [called] cell). *)
Inductive fn :=
| FUser (n : nat)
| FReply (cell : nat).

(** The values that travel as message arguments.  Numbers are the integers;
    [_nextSessionId] starts at 1000 and is only ever incremented, which is
    exact on JavaScript numbers below 2^53. *)
Inductive value :=
| VUndefined
| VNull
| VBool (b : bool)
| VNum (z : Z)
| VStr (s : string)
| VArr (items : list value)
| VObj (fields : list (string * value))
| VFun (f : fn)
| VEvent (s : sender).

(** [typeof v === 'string'], [typeof v === 'function'], [typeof v === 'object'] *)
Definition is_string (v : value) : bool :=
  match v with VStr _ => true | _ => false end.

Definition is_function (v : value) : bool :=
  match v with VFun _ => true | _ => false end.

Definition is_object (v : value) : bool :=
  match v with VNull | VArr _ | VObj _ | VEvent _ => true | _ => false end.

(** JavaScript truthiness *)
Definition truthy (v : value) : bool :=
  match v with
  | VUndefined | VNull => false
  | VBool b => b
  | VNum z => negb (z =? 0)
  | VStr s => negb (String.eqb s "")
  | VArr _ | VObj _ | VFun _ | VEvent _ => true
  end.

Fixpoint assoc (k : string) (fields : list (string * value)) : value :=
  match fields with
  | [] => VUndefined
  | (k', v) :: rest => if String.eqb k k' then v else assoc k rest
  end.

(** [v.k]: property read; only plain objects carry named properties *)
Definition get_field (v : value) (k : string) : value :=
  match v with VObj fields => assoc k fields | _ => VUndefined end.

(** [v === 'self'] and the like *)
Definition is_str (s : string) (v : value) : bool :=
  match v with VStr s' => String.eqb s' s | _ => false end.

(** [Ipc.excludeSelf] *)
Definition excludeSelf : value :=
  VObj [("__ipc__", VBool true); ("exclude", VStr "self")].

(** ** Collaborators: windows, panels *)

Record window := { win_id : nat; webContents : nat }.

(** What [Package.panelInfo] returns; only [type] is read here. *)
Record panel_info := { panel_type : value }.

(** ** What the module does to the outside *)

(** The diagnostics of the file, by call site. *)
Inductive diagnostic :=
| MessageMustBeString              (* 'The message must be string' *)
| ReplyFunctionNotFound            (* 'Invalid arguments, reply function not found!' *)
| LastArgumentMustBeFunction       (* 'The last argument must be function' *)
| ReplyCalledTwice (message : value)       (* 'The callback which reply to "m" can only be called once!' *)
| ListenerNotRegistered (message : value)  (* 'The listener of message "m" is not yet registered!' *)
| SendToMainFailed (message : value)       (* 'sendToMain "m" failed, not responded.' *)
| MainWindowNotFound (message : value)     (* 'Failed to send "m" to main window, the main window is not found.' *)
| MainPageNotInitialized (message : value) (* 'Failed to send "m" because main page not initialized.' *).

(** [Console], the windows and a renderer's [webContents] live outside this
    file.  A call to one of them is an event on the trace; they have no
    access to [_nextSessionId] and [_replyCallbacks], which are local to
    the module.  The last three events mark the places where the module
    itself hands out a session id, applies a stored continuation, and lets
    a reply function through. *)
Inductive event :=
| Console_error (d : diagnostic)           (* Console.error(...) *)
| Console_failed (d : diagnostic)          (* Console.failed(...) *)
| console_error (d : diagnostic)           (* the global console.error(...) *)
| SendToPage (w : window) (args : list value)        (* win.sendToPage(...args) *)
| WebContentsSend (wc : nat) (args : list value)     (* webContents.send(...args) *)
| Requested (sessionId : Z) (message : value) (args : list value)
    (* sendRequestToCore routes the request envelope of [sessionId] *)
| Fired (sessionId : Z) (cb : fn) (args : list value)
    (* the reply handler applies the continuation stored for [sessionId] *)
| Replied (cell : nat) (args : list value)
    (* the [_replyCallback] of request [cell] passes its guard and sends *).

(** The state captured by one [_replyCallback] closure: the [event.sender],
    [message] and [sessionId] of its request, and its [called] flag. *)
Record reply_closure := {
  rc_sender : sender;
  rc_message : value;
  rc_sessionId : value;
  called : bool
}.

Definition set_called (c : reply_closure) : reply_closure :=
  {| rc_sender := rc_sender c; rc_message := rc_message c;
     rc_sessionId := rc_sessionId c; called := true |}.

(** Outcome of a call: a result, a JavaScript exception, or an exhausted
    recursion budget.  Nothing in the file catches, so both failures unwind
    to the event loop and leave the state as it is at that point. *)
Inductive res (A : Type) :=
| Ok (a : A)
| Throw
| OutOfFuel.
Arguments Ok {A} a.
Arguments Throw {A}.
Arguments OutOfFuel {A}.

(** ** The monad of the embedding: state and failure *)

Definition M (S A : Type) : Type := S → S * res A.

Definition ret {S A} (a : A) : M S A := λ st, (st, Ok a).

Definition bind {S A B} (m : M S A) (f : A → M S B) : M S B :=
  λ st, match m st with
        | (st', Ok a) => f a st'
        | (st', Throw) => (st', Throw)
        | (st', OutOfFuel) => (st', OutOfFuel)
        end.

Definition throw {S A} : M S A := λ st, (st, Throw).

Definition get {S A} (proj : S → A) : M S A := λ st, (st, Ok (proj st)).

Notation "'let*' x := m 'in' k" := (bind m (λ x, k))
  (at level 10, x pattern, m at level 100, k at level 200).
Notation "m ;;; k" := (bind m (λ _, k))
  (at level 100, k at level 200, right associativity).

Definition is_nil {A} (l : list A) : bool :=
  match l with [] => true | _ => false end.

Fixpoint for_each {S A} (l : list A) (body : A → M S unit) : M S unit :=
  match l with
  | [] => ret tt
  | x :: rest => body x ;;; for_each rest body
  end.

Set Implicit Arguments.

Section Ipc.

(** The application keeps state of its own between calls. *)
Variable U : Type.

(** ** State *)

Record State := {
  _nextSessionId : Z;
  _replyCallbacks : gmap Z fn;
  closures : list reply_closure;
  trace : list event;
  user : U
}.

Definition add_event (e : event) : M State unit :=
  λ st, ({| _nextSessionId := _nextSessionId st;
            _replyCallbacks := _replyCallbacks st;
            closures := closures st;
            trace := trace st ++ [e];
            user := user st |}, Ok tt).

Definition set_nextSessionId (n : Z) : M State unit :=
  λ st, ({| _nextSessionId := n;
            _replyCallbacks := _replyCallbacks st;
            closures := closures st;
            trace := trace st;
            user := user st |}, Ok tt).

Definition set_replyCallbacks (m : gmap Z fn) : M State unit :=
  λ st, ({| _nextSessionId := _nextSessionId st;
            _replyCallbacks := m;
            closures := closures st;
            trace := trace st;
            user := user st |}, Ok tt).

Definition set_closures (l : list reply_closure) : M State unit :=
  λ st, ({| _nextSessionId := _nextSessionId st;
            _replyCallbacks := _replyCallbacks st;
            closures := l;
            trace := trace st;
            user := user st |}, Ok tt).

Definition set_user (u : U) : M State unit :=
  λ st, ({| _nextSessionId := _nextSessionId st;
            _replyCallbacks := _replyCallbacks st;
            closures := closures st;
            trace := trace st;
            user := u |}, Ok tt).

(** Modelled from the spec: [Console.error] and [Console.failed] of
    [lib/main/console.js], which is not among the sources.  The
    specification has Console as the process-wide diagnostic sink of the
    coordinating process, outside the core: a call hands the diagnostic to
    that sink, which is an event on the trace, and does nothing to the
    module.  Where the sink shows what it is given is not in the sources
    (a comment in [sendToMainWin] says that it uses IPC itself); the call
    sites below give it the text only, never the event or its sender. *)
Definition call_Console_error (d : diagnostic) : M State unit :=
  add_event (Console_error d).

Definition call_Console_failed (d : diagnostic) : M State unit :=
  add_event (Console_failed d).

(** ** Application code

    What application code can call: the exports of the module, a function
    value it holds, the [send] of the event it was given, and [ipcMain.emit]
    (which is also how Electron delivers an envelope sent by a renderer). *)
Inductive call :=
| Ipc_sendToWins (message : value) (args : list value)
| Ipc_sendToAll (message : value) (args : list value)
| Ipc_sendToMain (message : value) (args : list value)
| Ipc_sendToPanel (panelID message : value) (args : list value)
| Ipc_sendToMainWin (message : value) (args : list value)
| Ipc_sendRequestToCore (message : value) (args : list value)
| Ipc_cancelRequestToCore (sessionId : Z)
| Call (f : value) (args : list value)
| Sender_send (s : sender) (args : list value)
| IpcMain_emit (channel : value) (s : sender) (args : list value).

(** A piece of application code: it ends, calls out and goes on with the
    value returned, or reads or writes its own state. *)
Inductive prog :=
| Done
| Do (c : call) (k : value → prog)
| Load (k : U → prog)
| Store (u : U) (k : prog).

(** The collaborators the module reads: [Window.windows], [Window.main],
    [Panel.findWindow], [Package.panelInfo], the listeners the application
    registered on [ipcMain] (by channel, in registration order; each gets
    the event's sender and the arguments), and the bodies of the
    application's function values.  They are parameters of everything
    below. *)
Record Env := {
  Window_windows : list window;
  Window_main : option window;
  Panel_findWindow : value → option window;
  Package_panelInfo : value → option panel_info;
  listeners : value → list (sender → list value → prog);
  user_fun : nat → list value → prog
}.

(** The listeners the file itself registers with [ipcMain.on]. *)
Inductive handler :=
| On_send2wins          (* 'editor:send2wins' *)
| On_send2mainwin       (* 'editor:send2mainwin' *)
| On_send2all           (* 'editor:send2all' *)
| On_send2panel         (* 'editor:send2panel' *)
| On_sendreq2core       (* 'editor:sendreq2core' *)
| On_sendreq2core_reply (* 'editor:sendreq2core:reply' *).

Definition own_listener (channel : value) : option handler :=
  match channel with
  | VStr s =>
      if String.eqb s "editor:send2wins" then Some On_send2wins
      else if String.eqb s "editor:send2mainwin" then Some On_send2mainwin
      else if String.eqb s "editor:send2all" then Some On_send2all
      else if String.eqb s "editor:send2panel" then Some On_send2panel
      else if String.eqb s "editor:sendreq2core" then Some On_sendreq2core
      else if String.eqb s "editor:sendreq2core:reply" then Some On_sendreq2core_reply
      else None
  | _ => None
  end.

(** What runs with a fresh stack frame: application code, one of the file's
    listeners, or a function value. *)
Inductive task :=
| TRun (p : prog)
| THandle (h : handler) (s : sender) (args : list value)
| TApply (f : fn) (args : list value).

Section Body.

Variable env : Env.

(** The interpreter one level down: the bodies below are written against
    it, and [run] ties the knot. *)
Variable rec : task → M State unit.

(** *** Positional parameters *)

(** The first positional argument, [undefined] if missing. *)
Definition arg0 (args : list value) : value := hd VUndefined args.

(** A rest parameter after [n] named ones. *)
Definition rest_from (n : nat) (args : list value) : list value := drop n args.

(** [...v] and the second argument of [Function.prototype.apply]: an array
    gives its elements; [apply] also takes [null] and [undefined].  The
    protocol always passes an array; for the other values the call is a
    [TypeError] (array-likes and strings, which JavaScript would take
    apart, are left out of the model and stop the run too). *)
Definition spread (v : value) : M State (list value) :=
  match v with VArr l => ret l | _ => throw end.

Definition apply_args (v : value) : M State (list value) :=
  match v with
  | VArr l => ret l
  | VUndefined | VNull => ret []
  | _ => throw
  end.

(** *** [ipcMain.emit]

    [ipcMain] is a Node [EventEmitter].  [emit] calls the listeners of
    [channel] in order with the event and the arguments, and tells whether
    there was one.  The listener of the file comes first: it is registered
    when the module is loaded.  The channel ['error'] is special to an
    [EventEmitter]: emitting it while nobody listens to it throws. *)
Definition ipcMain_emit (channel : value) (s : sender) (args : list value) : M State bool :=
  let own := match own_listener channel with Some h => [h] | None => [] end in
  let theirs := listeners env channel in
  if is_nil own && is_nil theirs && is_str "error" channel then throw
  else
    for_each own (λ h, rec (THandle h s args)) ;;;
    for_each theirs (λ l, rec (TRun (l s args))) ;;;
    ret (negb (is_nil own && is_nil theirs)).

(** *** Internal *)

Definition _popOption (args : list value) : option value * list value :=
  let opt := last args in
  match opt with
  | Some o =>
      if truthy o && is_object o && truthy (get_field o "__ipc__")
      then (Some o, removelast args)
      else (None, args)
  | None => (None, args)
  end.

(** [opt && opt.exclude === 'self'] *)
Definition excludes_self (opt : option value) : bool :=
  match opt with
  | Some o => is_str "self" (get_field o "exclude")
  | None => false
  end.

Definition sendToPage (win : window) (args : list value) : M State unit :=
  add_event (SendToPage win args).

Definition _send2wins (message : value) (args : list value) : M State unit :=
  let args := message :: args in
  let winlist := Window_windows env in
  for_each winlist (λ win, sendToPage win args).

Definition is_excluded (win : window) (excluded : sender) : bool :=
  match excluded with
  | SRenderer wc => Nat.eqb (webContents win) wc
  | SMain => false
  end.

Definition _main2renderersExclude (excluded : sender) (args : list value) : M State unit :=
  let winlist := Window_windows env in
  for_each winlist (λ win,
    if negb (is_excluded win excluded) then sendToPage win args else ret tt).

Definition _main2renderers (message : value) (args : list value) : M State unit :=
  match args with
  | [] => _send2wins message []
  | _ => _send2wins message args
  end.

Definition _main2main (message : value) (args : list value) : M State bool :=
  let event := SMain in
  match args with
  | [] => ipcMain_emit message event []
  | _ => ipcMain_emit message event args
  end.

Definition _renderer2main (event : sender) (message : value) (args : list value) : M State bool :=
  match args with
  | [] => ipcMain_emit message event []
  | _ => ipcMain_emit message event args
  end.

Definition _renderer2renderers (event : sender) (message : value) (args : list value) : M State unit :=
  let '(opt, args) := _popOption args in
  if excludes_self opt
  then _main2renderersExclude event (message :: args)
  else _main2renderers message args.

(** [event.sender.send(...args)]: the synthetic sender of [_main2main] loops
    back into [_main2main]; a renderer's [webContents] is sent to. *)
Definition sender_send (s : sender) (args : list value) : M State unit :=
  match s with
  | SMain => _main2main (arg0 args) (rest_from 1 args) ;;; ret tt
  | SRenderer wc => add_event (WebContentsSend wc args)
  end.

(** *** Exports *)

Definition sendToWins := _send2wins.

Definition sendToAll (message : value) (args : list value) : M State unit :=
  match args with
  | _ :: _ =>
      let '(opt, args) := _popOption args in
      let excludeSelf := excludes_self opt in
      (if negb excludeSelf then _main2main message args ;;; ret tt else ret tt) ;;;
      _send2wins message args
  | [] =>
      _main2main message [] ;;;
      _send2wins message []
  end.

Definition sendToMain (message : value) (args : list value) : M State unit :=
  let* responded := _main2main message args in
  if negb responded
  then call_Console_failed (SendToMainFailed message)
  else ret tt.

Definition sendToPanel (panelID message : value) (args : list value) : M State unit :=
  match Panel_findWindow env panelID with
  | None => ret tt
  | Some win =>
      match Package_panelInfo env panelID with
      | None => ret tt
      | Some panelInfo =>
          if is_str "simple" (panel_type panelInfo)
          then sendToPage win (message :: args)
          else sendToPage win (VStr "editor:send2panel" :: panelID :: message :: args)
      end
  end.

Definition sendToMainWin (message : value) (args : list value) : M State unit :=
  match Window_main env with
  | None => add_event (console_error (MainWindowNotFound message))
  | Some mainWin => sendToPage mainWin (message :: args)
  end.

Definition sendRequestToCore (message : value) (args : list value) : M State value :=
  if negb (is_string message) then
    call_Console_error MessageMustBeString ;;; ret VNull
  else
    match last args with
    | None =>
        call_Console_error ReplyFunctionNotFound ;;; ret VNull
    | Some (VFun reply) =>
        let args := removelast args in
        let* sessionId := get _nextSessionId in
        set_nextSessionId (sessionId + 1) ;;;
        let* callbacks := get _replyCallbacks in
        set_replyCallbacks (<[sessionId := reply]> callbacks) ;;;
        add_event (Requested sessionId message args) ;;;
        _main2main (VStr "editor:sendreq2core") [message; VNum sessionId; VArr args] ;;;
        ret (VNum sessionId)
    | Some _ =>
        call_Console_error LastArgumentMustBeFunction ;;; ret VNull
    end.

Definition cancelRequestToCore (sessionId : Z) : M State unit :=
  let* callbacks := get _replyCallbacks in
  set_replyCallbacks (delete sessionId callbacks).

(** *** The listeners of the file *)

(** [let called = false; function _replyCallback ...]: a new closure for the
    request at hand. *)
Definition new_replyCallback (event : sender) (message sessionId : value) : M State nat :=
  let* cs := get closures in
  set_closures (cs ++ [{| rc_sender := event; rc_message := message;
                          rc_sessionId := sessionId; called := false |}]) ;;;
  ret (length cs).

Definition _replyCallback (cell : nat) (args : list value) : M State unit :=
  let* cs := get closures in
  match cs !! cell with
  | None => throw
  | Some c =>
      if called c then
        call_Console_error (ReplyCalledTwice (rc_message c))
      else
        set_closures (<[cell := set_called c]> cs) ;;;
        add_event (Replied cell args) ;;;
        sender_send (rc_sender c)
          [VStr "editor:sendreq2core:reply"; rc_sessionId c; VArr args]
  end.

Definition on_sendreq2core_reply (event : sender) (sessionId : Z) (args : value) : M State unit :=
  let* callbacks := get _replyCallbacks in
  match callbacks !! sessionId with
  | Some cb =>
      set_replyCallbacks (delete sessionId callbacks) ;;;
      let* args := apply_args args in
      add_event (Fired sessionId cb args) ;;;
      rec (TApply cb args)
  | None => ret tt
  end.

Definition on_sendreq2core (event : sender) (message sessionId args : value) : M State unit :=
  let* cell := new_replyCallback event message sessionId in
  let* args := spread args in
  let* handled := _renderer2main event message (VFun (FReply cell) :: args) in
  if negb handled
  then call_Console_error (ListenerNotRegistered message)
  else ret tt.

Definition on_send2mainwin (event : sender) (message : value) (args : list value) : M State unit :=
  match Window_main env with
  | None => add_event (console_error (MainPageNotInitialized message))
  | Some mainWin =>
      match args with
      | _ :: _ => sendToPage mainWin (VEvent event :: message :: args)
      | [] => sendToPage mainWin [message]
      end
  end.

Definition on_send2all (event : sender) (message : value) (args : list value) : M State unit :=
  let '(opt, args) := _popOption args in
  _renderer2main event message args ;;;
  if excludes_self opt
  then _main2renderersExclude event (message :: args)
  else _main2renderers message args.

Definition on_send2panel (event : sender) (panelID message : value) (args : list value) : M State unit :=
  sendToPanel panelID message args.

(** A listener is called with the event and the emitted arguments; missing
    positional parameters are [undefined].  Session ids are numbers
    ([@param {number} sessionId]): a reply envelope keyed by anything else is
    outside the model and stops the run. *)
Definition handle (h : handler) (event : sender) (args : list value) : M State unit :=
  let p (i : nat) := nth i args VUndefined in
  match h with
  | On_send2wins => _renderer2renderers event (p 0%nat) (rest_from 1 args)
  | On_send2mainwin => on_send2mainwin event (p 0%nat) (rest_from 1 args)
  | On_send2all => on_send2all event (p 0%nat) (rest_from 1 args)
  | On_send2panel => on_send2panel event (p 0%nat) (p 1%nat) (rest_from 2 args)
  | On_sendreq2core => on_sendreq2core event (p 0%nat) (p 1%nat) (p 2%nat)
  | On_sendreq2core_reply =>
      match p 0%nat with
      | VNum sessionId => on_sendreq2core_reply event sessionId (p 1%nat)
      | _ => throw
      end
  end.

(** *** Application code and function values *)

Definition exec_call (c : call) : M State value :=
  match c with
  | Ipc_sendToWins message args => sendToWins message args ;;; ret VUndefined
  | Ipc_sendToAll message args => sendToAll message args ;;; ret VUndefined
  | Ipc_sendToMain message args => sendToMain message args ;;; ret VUndefined
  | Ipc_sendToPanel panelID message args =>
      sendToPanel panelID message args ;;; ret VUndefined
  | Ipc_sendToMainWin message args => sendToMainWin message args ;;; ret VUndefined
  | Ipc_sendRequestToCore message args => sendRequestToCore message args
  | Ipc_cancelRequestToCore sessionId =>
      cancelRequestToCore sessionId ;;; ret VUndefined
  | Call (VFun f) args => rec (TApply f args) ;;; ret VUndefined
  | Call _ _ => throw
  | Sender_send s args => sender_send s args ;;; ret VUndefined
  | IpcMain_emit channel s args =>
      let* handled := ipcMain_emit channel s args in ret (VBool handled)
  end.

Definition run_prog (p : prog) : M State unit :=
  match p with
  | Done => ret tt
  | Do c k => let* v := exec_call c in rec (TRun (k v))
  | Load k => let* u := get user in rec (TRun (k u))
  | Store u k => set_user u ;;; rec (TRun k)
  end.

Definition apply_fn (f : fn) (args : list value) : M State unit :=
  match f with
  | FUser n => run_prog (user_fun env n args)
  | FReply cell => _replyCallback cell args
  end.

Definition step (t : task) : M State unit :=
  match t with
  | TRun p => run_prog p
  | THandle h s args => handle h s args
  | TApply f args => apply_fn f args
  end.

End Body.

(** ** The interpreter *)

Fixpoint run (env : Env) (fuel : nat) (t : task) : M State unit :=
  match fuel with
  | O => λ st, (st, OutOfFuel)
  | S n => step env (run env n) t
  end.

(** One turn of the event loop per program; a turn that fails leaves its
    state to the next. *)
Definition run_turns (env : Env) (fuel : nat) (turns : list prog) (st : State) : State :=
  fold_left (λ st p, (run env fuel (TRun p) st).1) turns st.

(** The state when the module is loaded. *)
Definition init (u : U) : State :=
  {| _nextSessionId := 1000; _replyCallbacks := ∅; closures := [];
     trace := []; user := u |}.

(** ** What is read off a trace *)

Definition is_fired (sessionId : Z) (e : event) : bool :=
  match e with Fired s _ _ => bool_decide (s = sessionId) | _ => false end.

Definition is_replied (cell : nat) (e : event) : bool :=
  match e with Replied c _ => bool_decide (c = cell) | _ => false end.

Definition requested_id (e : event) : option Z :=
  match e with Requested s _ _ => Some s | _ => None end.

(** An event that is none of [Requested], [Fired], [Replied]. *)
Definition plain (e : event) : bool :=
  match e with Requested _ _ _ | Fired _ _ _ | Replied _ _ => false | _ => true end.

Fixpoint count (p : event → bool) (l : list event) : nat :=
  match l with
  | [] => 0
  | e :: rest => (if p e then 1 else 0) + count p rest
  end.

(** How often the continuation of [sessionId] was applied. *)
Definition fired_count (sessionId : Z) (st : State) : nat :=
  count (is_fired sessionId) (trace st).

(** How often the reply function of request [cell] sent a reply. *)
Definition replied_count (cell : nat) (st : State) : nat :=
  count (is_replied cell) (trace st).

(** The session ids handed out, in the order of the calls. *)
Definition requested_ids (st : State) : list Z :=
  omap requested_id (trace st).

Definition pending (st : State) (sessionId : Z) : Prop :=
  is_Some (_replyCallbacks st !! sessionId).

(** ** The invariant

    A session id may still fire while it is pending or not yet handed out;
    [credit] adds that to the number of times it has fired, and no step of
    the module ever raises it.  [reply_credit] is the same for the [called]
    flag of a reply function. *)
Definition slot (st : State) (sessionId : Z) : nat :=
  match _replyCallbacks st !! sessionId with
  | Some _ => 1
  | None => if _nextSessionId st <=? sessionId then 1 else 0
  end.

Definition credit (st : State) (sessionId : Z) : nat :=
  (fired_count sessionId st + slot st sessionId)%nat.

Definition reply_slot (st : State) (cell : nat) : nat :=
  match closures st !! cell with
  | Some c => if called c then 0 else 1
  | None => 1
  end.

Definition reply_credit (st : State) (cell : nat) : nat :=
  (replied_count cell st + reply_slot st cell)%nat.

Record Inv (st : State) : Prop := {
  inv_pending : ∀ sessionId, pending st sessionId → 1000 ≤ sessionId < _nextSessionId st;
  inv_next : 1000 ≤ _nextSessionId st;
  inv_requested : requested_ids st = seqZ 1000 (_nextSessionId st - 1000)
}.

Record mono (st st' : State) : Prop := {
  mono_credit : ∀ sessionId, (credit st' sessionId ≤ credit st sessionId)%nat;
  mono_reply : ∀ cell, (reply_credit st' cell ≤ reply_credit st cell)%nat;
  mono_next : _nextSessionId st ≤ _nextSessionId st'
}.

Definition safe {A} (m : M State A) : Prop :=
  ∀ st, Inv st → Inv (m st).1 ∧ mono st (m st).1.

(** [st'] comes after [st]: programs, arriving envelopes and function
    calls ran in between, each to its end or until its budget ran out. *)
Inductive reaches (env : Env) (st : State) : State → Prop :=
| reaches_refl : reaches env st st
| reaches_run st' fuel t :
    reaches env st st' → reaches env st (run env fuel t st').1.

(** Every state the module can be in between two turns of the event loop. *)
Definition reachable (env : Env) (st : State) : Prop :=
  ∃ u, reaches env (init u) st.

(** [st'] is [st] after the events [evs] left the module, and nothing else
    changed. *)
Definition only_adds (st st' : State) (evs : list event) : Prop :=
  trace st' = trace st ++ evs ∧
  _nextSessionId st' = _nextSessionId st ∧
  _replyCallbacks st' = _replyCallbacks st ∧
  closures st' = closures st ∧
  user st' = user st.

End Ipc.

Unset Implicit Arguments.

Arguments Done {U}.
Arguments THandle {U} h s args.
Arguments TApply {U} f args.

(** ** A small application, for the examples

    Two windows, the first of them the main window; a composite panel in the
    first window and a simple one in the second; a listener of
    ['getVersion'] that replies once and one of ['twice'] that replies
    twice; continuation 1 sends a second reply envelope for session 1000. *)
Definition win1 : window := {| win_id := 1; webContents := 11 |}.
Definition win2 : window := {| win_id := 2; webContents := 12 |}.

Definition demo_listeners (channel : value) : list (sender → list value → prog unit) :=
  if is_str "getVersion" channel then
    [λ _ args, Do (Call (arg0 args) [VStr "1.2.3"]) (λ _, Done)]
  else if is_str "twice" channel then
    [λ _ args, Do (Call (arg0 args) [VStr "a"]) (λ _,
               Do (Call (arg0 args) [VStr "b"]) (λ _, Done))]
  else [].

Definition demo_fun (n : nat) (args : list value) : prog unit :=
  match n with
  | 1%nat => Do (Ipc_sendToMain (VStr "editor:sendreq2core:reply")
                   [VNum 1000; VArr [VStr "late"]]) (λ _, Done)
  | _ => Done
  end.

Definition demo_env : Env unit :=
  {| Window_windows := [win1; win2];
     Window_main := Some win1;
     Panel_findWindow := λ panelID,
       if is_str "pkg.panel" panelID then Some win1
       else if is_str "pkg.simple" panelID then Some win2
       else None;
     Package_panelInfo := λ panelID,
       if is_str "pkg.panel" panelID then Some {| panel_type := VStr "dockable" |}
       else if is_str "pkg.simple" panelID then Some {| panel_type := VStr "simple" |}
       else None;
     listeners := demo_listeners;
     user_fun := demo_fun |}.

(** The same application before its main window exists. *)
Definition demo_env_starting : Env unit :=
  {| Window_windows := [win2];
     Window_main := None;
     Panel_findWindow := λ _, None;
     Package_panelInfo := λ _, None;
     listeners := demo_listeners;
     user_fun := demo_fun |}.

(** The same application with one more listener in the main process:
    ['echo'] sends the arguments it was given on to the main window. *)
Definition demo_env_echo : Env unit :=
  {| Window_windows := [win1; win2];
     Window_main := Some win1;
     Panel_findWindow := Panel_findWindow demo_env;
     Package_panelInfo := Package_panelInfo demo_env;
     listeners := λ channel,
       if is_str "echo" channel then
         [λ _ args, Do (Ipc_sendToMainWin (VStr "echoed") args) (λ _, Done)]
       else demo_listeners channel;
     user_fun := demo_fun |}.

(** An option with the marker that excludes something else than self. *)
Definition exclude_other : value :=
  VObj [("__ipc__", VBool true); ("exclude", VStr "other")].

(** The scenarios of the examples: a request that is answered, one that
    nobody answers, and an inbound request of a renderer. *)
Definition request_getVersion (cb : nat) : prog unit :=
  Do (Ipc_sendRequestToCore (VStr "getVersion") [VFun (FUser cb)]) (λ _, Done).

Definition request_slowOp : prog unit :=
  Do (Ipc_sendRequestToCore (VStr "slowOp") [VFun (FUser 2)]) (λ _, Done).

Definition inbound_request (message : string) (wc : nat) : prog unit :=
  Do (IpcMain_emit (VStr "editor:sendreq2core") (SRenderer wc)
        [VStr message; VNum 7; VArr []]) (λ _, Done).

Definition demo_answered : State unit :=
  run_turns demo_env 9 [request_getVersion 0] (init tt).

Definition demo_pending : State unit :=
  run_turns demo_env 9 [request_getVersion 0; request_slowOp] (init tt).


(** What [sendRequestToCore] checks before it allocates: [typeof message],
    [args.length], [typeof args[args.length - 1]]. *)
Definition valid_request (message : value) (args : list value) : bool :=
  is_string message &&
  match last args with Some reply => is_function reply | None => false end.

(** The claim of the specification that [sendRequestToCore] takes a
    non-empty string for its message, in the specification's words. *)
Definition spec_non_empty_string (message : value) : Prop :=
  ∃ s, message = VStr s ∧ s ≠ "".


Definition demo_two_unanswered : State unit :=
  run_turns demo_env 9 [inbound_request "nobody" 11; inbound_request "nobody" 12] (init tt).

(** The windows a broadcast that leaves [excluded] out is delivered to:
    those whose [webContents] is not the excluded sender. *)
Definition windows_but (excluded : sender) (wins : list window) : list window :=
  List.filter (λ win, negb (is_excluded win excluded)) wins.

(** One [sendToPage] of [args] per window, in the order of the list. *)
Definition page_deliveries (wins : list window) (args : list value) : list event :=
  (λ win, SendToPage win args) <$> wins.

Section Proofs.

Context {U : Type}.

Implicit Types (st : State U) (env : Env U) (t : task U) (u : U).

#[local] Abbreviation safe := (@safe U _).

Lemma count_app p l1 l2 : count p (l1 ++ l2) = (count p l1 + count p l2)%nat.
Proof. induction l1 as [|e l1 IH]; simpl; [done | rewrite IH; lia]. Qed.

Lemma mono_refl st : mono st st.
Proof. split; intros; lia. Qed.

Lemma mono_trans st1 st2 st3 : mono st1 st2 → mono st2 st3 → mono st1 st3.
Proof.
  intros [c1 r1 n1] [c2 r2 n2]; split; intros.
  - specialize (c1 sessionId); specialize (c2 sessionId); lia.
  - specialize (r1 cell); specialize (r2 cell); lia.
  - lia.
Qed.

Lemma safe_ret {A} (a : A) : safe (@ret (State U) A a).
Proof. intros st H; simpl; auto using mono_refl. Qed.

Lemma safe_throw {A} : safe (@throw (State U) A).
Proof. intros st H; simpl; auto using mono_refl. Qed.

Lemma safe_get {A} (proj : State U → A) : safe (get proj).
Proof. intros st H; simpl; auto using mono_refl. Qed.

Lemma safe_bind {A B} (m : M (State U) A) (k : A → M (State U) B) :
  safe m → (∀ a, safe (k a)) → safe (bind m k).
Proof.
  intros Hm Hk st H. unfold bind.
  destruct (Hm st H) as [H1 M1]. destruct (m st) as [st1 [a| |]]; simpl in *; auto.
  destruct (Hk a st1 H1) as [H2 M2]. eauto using mono_trans.
Qed.

Lemma safe_for_each {A} (l : list A) (body : A → M (State U) unit) :
  (∀ x, safe (body x)) → safe (for_each l body).
Proof.
  intros Hb. induction l as [|x l IH]; simpl.
  - apply safe_ret.
  - apply safe_bind; auto.
Qed.

Lemma safe_add_plain e : plain e = true → safe (add_event e).
Proof.
  intros He st [Hp Hn Hr]. simpl. split; split; simpl; auto; try lia.
  - unfold requested_ids in *; simpl. rewrite omap_app, Hr; simpl.
    destruct e; simpl in *; try discriminate; by rewrite app_nil_r.
  - intros s. unfold credit, fired_count, slot; simpl. rewrite count_app; simpl.
    destruct e; simpl in *; try discriminate; lia.
  - intros c. unfold reply_credit, replied_count, reply_slot; simpl.
    rewrite count_app; simpl. destruct e; simpl in *; try discriminate; lia.
Qed.

Lemma safe_set_user u : safe (set_user u).
Proof. intros st [Hp Hn Hr]. simpl. split; split; simpl; auto; try lia. Qed.

(** ** The steps that touch the session table or a [called] flag *)

Lemma requested_ids_snoc st st' e :
  trace st' = trace st ++ [e] →
  requested_ids st' = requested_ids st ++ from_option (λ s, [s]) [] (requested_id e).
Proof.
  intros E. unfold requested_ids. rewrite E, omap_app. simpl.
  by destruct (requested_id e).
Qed.

Lemma seqZ_snoc (n : Z) : 1000 ≤ n → seqZ 1000 (n + 1 - 1000) = seqZ 1000 (n - 1000) ++ [n].
Proof.
  intros Hn. replace (n + 1 - 1000) with ((n - 1000) + 1) by lia.
  rewrite seqZ_app by lia. f_equal.
  rewrite seqZ_cons by lia. rewrite seqZ_nil by lia. f_equal. lia.
Qed.

(** [let sessionId = _nextSessionId++; _replyCallbacks[sessionId] = reply;]
    and the request envelope leaves. *)
Lemma allocate_safe st reply message args :
  Inv st →
  let st1 := {| _nextSessionId := _nextSessionId st + 1;
                _replyCallbacks := <[_nextSessionId st := reply]> (_replyCallbacks st);
                closures := closures st;
                trace := trace st ++ [Requested (_nextSessionId st) message args];
                user := user st |} in
  Inv st1 ∧ mono st st1.
Proof.
  intros [Hp Hn Hr] st1.
  assert (Hfresh : _replyCallbacks st !! _nextSessionId st = None).
  { destruct (_replyCallbacks st !! _nextSessionId st) eqn:E; [|done].
    assert (1000 ≤ _nextSessionId st < _nextSessionId st) by (apply Hp; by eexists). lia. }
  split; split; simpl.
  - intros s [cb Hs]. simpl in Hs.
    destruct (decide (_nextSessionId st = s)) as [<-|Hne]; [lia|].
    rewrite lookup_insert_ne in Hs by done.
    assert (1000 ≤ s < _nextSessionId st) by (apply Hp; by eexists). lia.
  - lia.
  - rewrite (requested_ids_snoc st st1 (Requested (_nextSessionId st) message args)) by done.
    simpl. rewrite Hr. symmetry. by apply seqZ_snoc.
  - intros s. unfold credit, fired_count, slot; simpl. rewrite count_app; simpl.
    destruct (decide (_nextSessionId st = s)) as [<-|Hne].
    + rewrite lookup_insert_eq, Hfresh. rewrite (Z.leb_refl). lia.
    + rewrite lookup_insert_ne by done.
      destruct (_replyCallbacks st !! s); [lia|].
      destruct (Z.leb_spec (_nextSessionId st + 1) s), (Z.leb_spec (_nextSessionId st) s); lia.
  - intros c. unfold reply_credit, replied_count, reply_slot; simpl.
    rewrite count_app; simpl. lia.
  - lia.
Qed.

(** [delete _replyCallbacks[sessionId]] *)
Lemma delete_safe st sessionId :
  Inv st →
  let st1 := {| _nextSessionId := _nextSessionId st;
                _replyCallbacks := delete sessionId (_replyCallbacks st);
                closures := closures st;
                trace := trace st;
                user := user st |} in
  Inv st1 ∧ mono st st1.
Proof.
  intros [Hp Hn Hr] st1. split; split; simpl; auto; try lia.
  - intros s [cb Hs]. simpl in Hs. apply Hp.
    destruct (decide (sessionId = s)) as [<-|Hne].
    + by rewrite lookup_delete_eq in Hs.
    + rewrite lookup_delete_ne in Hs by done. by eexists.
  - intros s. unfold credit, fired_count, slot; simpl.
    destruct (decide (sessionId = s)) as [<-|Hne].
    + rewrite lookup_delete_eq.
      destruct (_replyCallbacks st !! sessionId) eqn:E; [|lia].
      destruct (_nextSessionId st <=? sessionId); lia.
    + rewrite lookup_delete_ne by done. lia.
Qed.

(** [delete _replyCallbacks[sessionId]; cb.apply(null, args)] for a pending
    session: the entry goes, the continuation is applied. *)
Lemma fire_safe st sessionId cb args :
  Inv st →
  _replyCallbacks st !! sessionId = Some cb →
  let st1 := {| _nextSessionId := _nextSessionId st;
                _replyCallbacks := delete sessionId (_replyCallbacks st);
                closures := closures st;
                trace := trace st ++ [Fired sessionId cb args];
                user := user st |} in
  Inv st1 ∧ mono st st1.
Proof.
  intros [Hp Hn Hr] Hcb st1.
  assert (Hlt : 1000 ≤ sessionId < _nextSessionId st) by (apply Hp; by eexists).
  split; split; simpl; auto; try lia.
  - intros s [f Hs]. simpl in Hs. apply Hp.
    destruct (decide (sessionId = s)) as [<-|Hne].
    + by rewrite lookup_delete_eq in Hs.
    + rewrite lookup_delete_ne in Hs by done. by eexists.
  - rewrite (requested_ids_snoc st st1 (Fired sessionId cb args)) by done.
    simpl. by rewrite app_nil_r.
  - intros s. unfold credit, fired_count, slot; simpl. rewrite count_app; simpl.
    destruct (decide (sessionId = s)) as [<-|Hne].
    + rewrite lookup_delete_eq, Hcb, bool_decide_eq_true_2 by done.
      destruct (Z.leb_spec (_nextSessionId st) sessionId); lia.
    + rewrite lookup_delete_ne, bool_decide_eq_false_2 by done. lia.
  - intros c. unfold reply_credit, replied_count, reply_slot; simpl.
    rewrite count_app; simpl. lia.
Qed.

(** [let called = false;] of a new request *)
Lemma new_closure_safe st c :
  called c = false →
  Inv st →
  let st1 := {| _nextSessionId := _nextSessionId st;
                _replyCallbacks := _replyCallbacks st;
                closures := closures st ++ [c];
                trace := trace st;
                user := user st |} in
  Inv st1 ∧ mono st st1.
Proof.
  intros Hc [Hp Hn Hr] st1. split; split; simpl; auto; try lia.
  intros cell. unfold reply_credit, replied_count, reply_slot; simpl.
  destruct (decide (cell < length (closures st))%nat) as [Hlt|Hge].
  - rewrite lookup_app_l by done. lia.
  - rewrite (lookup_ge_None_2 (closures st)) by lia.
    destruct ((closures st ++ [c]) !! cell) as [c'|] eqn:E; [|lia].
    rewrite lookup_app_r in E by lia.
    destruct (cell - length (closures st))%nat; simpl in E; [|done].
    injection E as <-. rewrite Hc. lia.
Qed.

(** [called = true; event.sender.send(...)] on the first call *)
Lemma reply_safe st cell c args :
  closures st !! cell = Some c →
  called c = false →
  Inv st →
  let st1 := {| _nextSessionId := _nextSessionId st;
                _replyCallbacks := _replyCallbacks st;
                closures := <[cell := set_called c]> (closures st);
                trace := trace st ++ [Replied cell args];
                user := user st |} in
  Inv st1 ∧ mono st st1.
Proof.
  intros Hcell Hc [Hp Hn Hr] st1. split; split; simpl; auto; try lia.
  - rewrite (requested_ids_snoc st st1 (Replied cell args)) by done.
    simpl. by rewrite app_nil_r.
  - intros s. unfold credit, fired_count, slot; simpl. rewrite count_app; simpl. lia.
  - intros c'. unfold reply_credit, replied_count, reply_slot; simpl.
    rewrite count_app; simpl.
    destruct (decide (cell = c')) as [<-|Hne].
    + rewrite list_lookup_insert_eq by (by eapply lookup_lt_Some).
      rewrite Hcell, Hc, bool_decide_eq_true_2 by done. simpl. lia.
    + rewrite list_lookup_insert_ne, bool_decide_eq_false_2 by done. lia.
Qed.

(** ** Every function of the file keeps the invariant *)

Section Safety.

Variable env : Env U.
Variable rec : task U → M (State U) unit.
Hypothesis safe_rec : ∀ t, safe (rec t).

Ltac safe_step :=
  first
    [ apply safe_ret | apply safe_throw | apply safe_get | apply safe_rec
    | apply safe_set_user
    | apply safe_add_plain; reflexivity
    | apply safe_for_each; intros ?
    | apply safe_bind; [| intros ?]
    | match goal with |- safe (match ?x with _ => _ end) => destruct x end
    | match goal with |- safe (let '(_, _) := ?x in _) => destruct x end
    | assumption ].

Ltac safe_auto := repeat safe_step.

Lemma safe_ipcMain_emit channel s args : safe (ipcMain_emit env rec channel s args).
Proof. unfold ipcMain_emit. safe_auto. Qed.

Lemma safe__main2main message args : safe (_main2main env rec message args).
Proof. unfold _main2main. destruct args; apply safe_ipcMain_emit. Qed.

Lemma safe__renderer2main event message args :
  safe (_renderer2main env rec event message args).
Proof. unfold _renderer2main. destruct args; apply safe_ipcMain_emit. Qed.

Lemma safe_sendToPage win args : safe (sendToPage win args).
Proof. unfold sendToPage. safe_auto. Qed.

Lemma safe__send2wins message args : safe (_send2wins env message args).
Proof. unfold _send2wins. safe_auto. Qed.

Lemma safe__main2renderersExclude excluded args :
  safe (_main2renderersExclude env excluded args).
Proof. unfold _main2renderersExclude. safe_auto. Qed.

Lemma safe__main2renderers message args : safe (_main2renderers env message args).
Proof. unfold _main2renderers. destruct args; apply safe__send2wins. Qed.

Lemma safe__renderer2renderers event message args :
  safe (_renderer2renderers env event message args).
Proof.
  unfold _renderer2renderers. safe_auto.
  all: auto using safe__main2renderersExclude, safe__main2renderers.
Qed.

Lemma safe_sender_send s args : safe (sender_send env rec s args).
Proof.
  unfold sender_send. destruct s; safe_auto; auto using safe__main2main.
Qed.

Lemma safe_sendToAll message args : safe (sendToAll env rec message args).
Proof.
  unfold sendToAll.
  destruct args; safe_auto; auto using safe__main2main, safe__send2wins.
Qed.

Lemma safe_sendToMain message args : safe (sendToMain env rec message args).
Proof. unfold sendToMain. safe_auto; auto using safe__main2main. Qed.

Lemma safe_sendToPanel panelID message args :
  safe (sendToPanel env panelID message args).
Proof. unfold sendToPanel. safe_auto. Qed.

Lemma safe_sendToMainWin message args : safe (sendToMainWin env message args).
Proof. unfold sendToMainWin. safe_auto. Qed.

Lemma safe_sendRequestToCore message args :
  safe (sendRequestToCore env rec message args).
Proof.
  unfold sendRequestToCore.
  destruct (is_string message); cbn [negb]; [|safe_auto].
  destruct (last args) as [[]|]; try solve [safe_auto].
  intros st H. cbv beta iota zeta delta [bind get set_nextSessionId set_replyCallbacks add_event].
  cbn [_nextSessionId _replyCallbacks closures trace user].
  match goal with |- context [_main2main env rec ?m ?a ?s] =>
    destruct (allocate_safe st f message (removelast args) H) as [H1 M1];
    destruct (safe__main2main m a s H1) as [H2 M2];
    destruct (_main2main env rec m a s) as [st2 [b| |]]
  end; simpl in *; eauto using mono_trans.
Qed.

(** A call that returns a session id returns the counter's value and
    leaves the counter above it. *)
Lemma sendRequestToCore_returns message args st st' sessionId :
  Inv st →
  sendRequestToCore env rec message args st = (st', Ok (VNum sessionId)) →
  sessionId = _nextSessionId st ∧ sessionId < _nextSessionId st' ∧ Inv st'.
Proof.
  intros H. unfold sendRequestToCore.
  destruct (is_string message); cbn [negb]; [|discriminate].
  destruct (last args) as [[]|]; try discriminate.
  cbv beta iota zeta delta [bind get set_nextSessionId set_replyCallbacks add_event].
  cbn [_nextSessionId _replyCallbacks closures trace user].
  match goal with |- context [_main2main env rec ?m ?a ?s] =>
    destruct (allocate_safe st f message (removelast args) H) as [H1 M1];
    destruct (safe__main2main m a s H1) as [H2 M2];
    destruct (_main2main env rec m a s) as [st2 [b| |]]
  end; try discriminate.
  intros [= <- <-]. destruct M2 as [_ _ Hn]. simpl in *.
  split; [|split]; [done | lia | done].
Qed.

Lemma safe_cancelRequestToCore sessionId : safe (cancelRequestToCore sessionId).
Proof. intros st H. apply (delete_safe st sessionId H). Qed.

Lemma safe_new_replyCallback event message sessionId :
  safe (new_replyCallback event message sessionId).
Proof. intros st H. by apply (new_closure_safe st). Qed.

Lemma safe__replyCallback cell args : safe (_replyCallback env rec cell args).
Proof.
  intros st H. unfold _replyCallback.
  cbv beta iota zeta delta [bind get]. cbn [closures].
  destruct (closures st !! cell) as [c|] eqn:Hcell; [|by apply safe_throw].
  destruct (called c) eqn:Hc; [by apply safe_add_plain|].
  cbv beta iota zeta delta [bind set_closures add_event].
  cbn [_nextSessionId _replyCallbacks closures trace user].
  match goal with |- context [sender_send env rec ?s ?a ?st1] =>
    destruct (reply_safe st cell c args Hcell Hc H) as [H1 M1];
    destruct (safe_sender_send s a st1 H1) as [H2 M2]
  end; eauto using mono_trans.
Qed.

Lemma safe_on_sendreq2core_reply event sessionId args :
  safe (on_sendreq2core_reply rec event sessionId args).
Proof.
  intros st H. unfold on_sendreq2core_reply. rename sessionId into sid.
  cbv beta iota zeta delta [bind get]. cbn [_replyCallbacks].
  destruct (_replyCallbacks st !! sid) as [cb|] eqn:Hcb; [|by apply safe_ret].
  cbv beta iota zeta delta [bind set_replyCallbacks].
  cbn [_nextSessionId _replyCallbacks closures trace user].
  unfold apply_args.
  destruct args as [| | | | |l| | |];
    try (by apply (delete_safe st sid H)).
  all: cbv beta iota zeta delta [bind ret add_event];
    cbn [_nextSessionId _replyCallbacks closures trace user];
    match goal with |- context [rec ?t ?st1] =>
      match type of Hcb with _ = Some ?cb =>
        match st1 with context [Fired _ _ ?a] =>
          destruct (fire_safe st sid cb a H Hcb) as [H1 M1]
        end
      end;
      destruct (safe_rec t st1 H1) as [H2 M2]
    end; eauto using mono_trans.
Qed.

Lemma safe_on_sendreq2core event message sessionId args :
  safe (on_sendreq2core env rec event message sessionId args).
Proof.
  unfold on_sendreq2core.
  apply safe_bind; [apply safe_new_replyCallback | intros cell].
  apply safe_bind; [unfold spread; destruct args; safe_auto | intros l].
  apply safe_bind; [apply safe__renderer2main | intros handled].
  destruct handled; safe_auto.
Qed.

Lemma safe_handle h event args : safe (handle env rec h event args).
Proof.
  unfold handle. destruct h.
  - apply safe__renderer2renderers.
  - unfold on_send2mainwin. safe_auto.
  - unfold on_send2all. safe_auto;
      auto using safe__renderer2main, safe__main2renderersExclude, safe__main2renderers.
  - apply safe_sendToPanel.
  - apply safe_on_sendreq2core.
  - destruct (nth 0 args VUndefined); try apply safe_throw.
    apply safe_on_sendreq2core_reply.
Qed.

Lemma safe_exec_call c : safe (exec_call env rec c).
Proof.
  unfold exec_call. destruct c as [m a|m a|m a|p m a|m a|m a|sid|f a|s a|ch s a].
  all: try destruct f.
  all: try (apply safe_bind; [| intros ?; apply safe_ret]).
  all: auto using safe__send2wins, safe_sendToAll, safe_sendToMain, safe_sendToPanel,
      safe_sendToMainWin, safe_sendRequestToCore, safe_cancelRequestToCore,
      safe_sender_send, safe_ipcMain_emit, safe_throw.
Qed.

Lemma safe_run_prog p : safe (run_prog env rec p).
Proof. unfold run_prog. destruct p; safe_auto; auto using safe_exec_call. Qed.

Lemma safe_step t : safe (step env rec t).
Proof.
  destruct t as [p|h s args|[n|cell] args]; simpl.
  - apply safe_run_prog.
  - apply safe_handle.
  - apply safe_run_prog.
  - apply safe__replyCallback.
Qed.

End Safety.

Lemma safe_run env fuel t : safe (run env fuel t).
Proof.
  revert t. induction fuel as [|n IH]; intros t; simpl.
  - intros st H; simpl; auto using mono_refl.
  - by apply safe_step.
Qed.

Lemma Inv_init u : Inv (init u).
Proof.
  split; [intros s [cb Hs]; unfold init in Hs; simpl in Hs | simpl; lia | done].
  by rewrite ?lookup_empty in Hs.
Qed.

Lemma reaches_safe env st st' : reaches env st st' → Inv st → Inv st' ∧ mono st st'.
Proof.
  induction 1 as [|st' fuel t _ IH]; intros H.
  - auto using mono_refl.
  - destruct (IH H) as [H1 M1]. destruct (safe_run env fuel t st' H1) as [H2 M2].
    eauto using mono_trans.
Qed.

Lemma reaches_trans env st1 st2 st3 :
  reaches env st1 st2 → reaches env st2 st3 → reaches env st1 st3.
Proof. intros H12 H23. induction H23; [done | by constructor]. Qed.

Lemma reaches_run_turns env fuel turns st : reaches env st (run_turns env fuel turns st).
Proof.
  assert (G : ∀ st', reaches env st st' → reaches env st (run_turns env fuel turns st')).
  { induction turns as [|p turns IH]; intros st' H; simpl; [done|].
    apply IH. by constructor. }
  apply G. constructor.
Qed.

(** The states between the calls of a program are among them. *)
Lemma reaches_exec_call env fuel c st :
  reaches env st (exec_call env (run env fuel) c st).1.
Proof.
  assert (E : (run env (S fuel) (TRun (Do c (λ _, Done))) st).1
              = (exec_call env (run env fuel) c st).1).
  { simpl. unfold bind. destruct (exec_call env (run env fuel) c st) as [st' [v| |]];
      [|done|done]. by destruct fuel. }
  rewrite <- E. constructor. constructor.
Qed.

Lemma reachable_Inv env st : reachable env st → Inv st.
Proof. intros [u H]. by apply (reaches_safe env (init u) st H), Inv_init. Qed.

Lemma StronglySorted_seqZ (m n : Z) : StronglySorted Z.lt (seqZ m n).
Proof.
  destruct (Z.le_gt_cases n 0) as [Hn|Hn]; [rewrite seqZ_nil by done; constructor|].
  rewrite <- (Z2Nat.id n) by lia. clear Hn.
  generalize (Z.to_nat n) as k. clear n. intros k. revert m.
  induction k as [|k IH]; intros m.
  - rewrite seqZ_nil by done. constructor.
  - rewrite seqZ_cons by lia.
    replace (Z.pred (Z.of_nat (S k))) with (Z.of_nat k) by lia.
    constructor; [apply IH|]. apply Forall_seqZ. intros; lia.
Qed.

Lemma slot_le_1 st sessionId : (slot st sessionId ≤ 1)%nat.
Proof.
  unfold slot. destruct (_replyCallbacks st !! sessionId); [lia|].
  destruct (_nextSessionId st <=? sessionId); lia.
Qed.

Lemma reply_slot_le_1 st cell : (reply_slot st cell ≤ 1)%nat.
Proof.
  unfold reply_slot. destruct (closures st !! cell) as [c|]; [destruct (called c)|]; lia.
Qed.

Lemma credit_reachable env st sessionId :
  reachable env st → (credit st sessionId ≤ 1)%nat.
Proof.
  intros [u H].
  destruct (reaches_safe env (init u) st H (Inv_init u)) as [_ [Hc _ _]].
  specialize (Hc sessionId). pose proof (slot_le_1 (init u) sessionId).
  unfold credit, fired_count in *. simpl in *. lia.
Qed.


Lemma reachable_init env u : reachable env (init u).
Proof. exists u. constructor. Qed.

Lemma reachable_run_turns env fuel turns u :
  reachable env (run_turns env fuel turns (init u)).
Proof. exists u. apply reaches_run_turns. Qed.

(** ** The exports, one by one *)

Lemma is_str_true s v : is_str s v = true ↔ v = VStr s.
Proof.
  destruct v; simpl; try (split; [discriminate | by intros [=]]).
  rewrite String.eqb_eq. split; [by intros -> | by intros [= ->]].
Qed.

Lemma is_str_false s v : v ≠ VStr s → is_str s v = false.
Proof.
  intros Hne. destruct (is_str s v) eqn:E; [|done]. by apply is_str_true in E.
Qed.

Lemma only_adds_add_event st e : only_adds st (add_event e st).1 [e].
Proof. by repeat split. Qed.

(** C9: [sendToMainWin] without a main window logs one warning with
    [console.error] and delivers nothing; it returns normally and does
    nothing else (no exception, no retry).  With a main window, the message
    and its arguments are delivered to it. *)
Theorem sendToMainWin_absent_or_present env message args st :
  (Window_main env = None →
     ∃ st', sendToMainWin env message args st = (st', Ok tt) ∧
            only_adds st st' [console_error (MainWindowNotFound message)]) ∧
  (∀ mainWin, Window_main env = Some mainWin →
     ∃ st', sendToMainWin env message args st = (st', Ok tt) ∧
            only_adds st st' [SendToPage mainWin (message :: args)]).
Proof.
  unfold sendToMainWin. split.
  - intros ->. eexists; split; [reflexivity | apply only_adds_add_event].
  - intros w ->. eexists; split; [reflexivity | apply only_adds_add_event].
Qed.

(** C8: [sendToPanel] delivers by the kind of the panel: a panel of type
    ['simple'] gets the raw message and arguments at its window; any other
    panel gets the envelope ['editor:send2panel', panelID, message, args];
    when the window or the panel's info cannot be found nothing is
    delivered and the call returns normally. *)
Theorem sendToPanel_by_kind env panelID message args st :
  (∀ win info,
     Panel_findWindow env panelID = Some win →
     Package_panelInfo env panelID = Some info →
     panel_type info = VStr "simple" →
     ∃ st', sendToPanel env panelID message args st = (st', Ok tt) ∧
            only_adds st st' [SendToPage win (message :: args)]) ∧
  (∀ win info,
     Panel_findWindow env panelID = Some win →
     Package_panelInfo env panelID = Some info →
     panel_type info ≠ VStr "simple" →
     ∃ st', sendToPanel env panelID message args st = (st', Ok tt) ∧
            only_adds st st'
              [SendToPage win (VStr "editor:send2panel" :: panelID :: message :: args)]) ∧
  (Panel_findWindow env panelID = None ∨ Package_panelInfo env panelID = None →
     sendToPanel env panelID message args st = (st, Ok tt)).
Proof.
  unfold sendToPanel. split; [|split].
  - intros win info -> -> Ht. rewrite (proj2 (is_str_true _ _) Ht).
    eexists; split; [reflexivity | apply only_adds_add_event].
  - intros win info -> -> Ht.
    destruct (is_str "simple" (panel_type info)) eqn:E.
    + by apply is_str_true in E.
    + eexists; split; [reflexivity | apply only_adds_add_event].
  - intros [-> | ->]; [done|]. by destruct (Panel_findWindow env panelID).
Qed.

(** The request listener when nobody listens to [message]. *)
Lemma on_sendreq2core_no_listener env rec event message sessionId front st :
  own_listener message = None → listeners env message = [] →
  message ≠ VStr "error" →
  on_sendreq2core env rec event message sessionId (VArr front) st =
    ({| _nextSessionId := _nextSessionId st;
        _replyCallbacks := _replyCallbacks st;
        closures := closures st ++ [{| rc_sender := event; rc_message := message;
                                       rc_sessionId := sessionId; called := false |}];
        trace := trace st ++ [Console_error (ListenerNotRegistered message)];
        user := user st |}, Ok tt).
Proof.
  intros Hown Hnone Herr.
  unfold on_sendreq2core, new_replyCallback, spread, _renderer2main, ipcMain_emit,
    bind, get, set_closures, ret, add_event.
  cbn -[own_listener listeners is_str]. rewrite Hown, Hnone, (is_str_false _ _ Herr).
  reflexivity.
Qed.

Lemma removelast_snoc {A} (l : list A) (x : A) : removelast (l ++ [x]) = l.
Proof. apply removelast_last. Qed.

(** C4, as the code has it: [sendRequestToCore] returns [null] after one
    [Console.error] when the message is not a string (the empty string
    passes), when there is no positional argument, or when the last one is
    not a function, and changes nothing else.  Otherwise it takes the next
    session id, stores the continuation under it, dispatches the request
    envelope [message, sessionId, args] on ['editor:sendreq2core'], and
    returns the id once the dispatch is back; when nobody listens to
    [message], and [message] is not ['error'], that is after one "listener
    not registered" error. *)
Theorem sendRequestToCore_validates env rec message args st :
  (is_string message = false →
     ∃ st', sendRequestToCore env rec message args st = (st', Ok VNull) ∧
            only_adds st st' [Console_error MessageMustBeString]) ∧
  (is_string message = true → args = [] →
     ∃ st', sendRequestToCore env rec message args st = (st', Ok VNull) ∧
            only_adds st st' [Console_error ReplyFunctionNotFound]) ∧
  (∀ front reply,
     is_string message = true → args = front ++ [reply] → is_function reply = false →
     ∃ st', sendRequestToCore env rec message args st = (st', Ok VNull) ∧
            only_adds st st' [Console_error LastArgumentMustBeFunction]) ∧
  (∀ front reply,
     is_string message = true → args = front ++ [VFun reply] →
     let sessionId := _nextSessionId st in
     let st1 := {| _nextSessionId := sessionId + 1;
                   _replyCallbacks := <[sessionId := reply]> (_replyCallbacks st);
                   closures := closures st;
                   trace := trace st ++ [Requested sessionId message front];
                   user := user st |} in
     sendRequestToCore env rec message args st =
       (_main2main env rec (VStr "editor:sendreq2core")
          [message; VNum sessionId; VArr front] ;;;
        ret (VNum sessionId)) st1) ∧
  (∀ front reply fuel,
     is_string message = true → args = front ++ [VFun reply] →
     own_listener message = None → listeners env message = [] →
     message ≠ VStr "error" →
     listeners env (VStr "editor:sendreq2core") = [] →
     ∃ st', sendRequestToCore env (run env (S fuel)) message args st
              = (st', Ok (VNum (_nextSessionId st))) ∧
            _nextSessionId st' = _nextSessionId st + 1 ∧
            _replyCallbacks st' = <[_nextSessionId st := reply]> (_replyCallbacks st) ∧
            trace st' = trace st ++ [Requested (_nextSessionId st) message front;
                                     Console_error (ListenerNotRegistered message)]).
Proof.
  unfold sendRequestToCore. repeat split.
  - intros ->. eexists; split; [reflexivity | by repeat split].
  - intros -> ->. eexists; split; [reflexivity | by repeat split].
  - intros front reply -> -> Hf. rewrite last_snoc.
    destruct reply; try discriminate; (eexists; split; [reflexivity | by repeat split]).
  - intros front reply -> ->. by rewrite last_snoc, removelast_snoc.
  - intros front reply fuel Hs -> Hown Hnone Herr Hcore.
    rewrite Hs, last_snoc, removelast_snoc. cbn [negb].
    destruct message as [| | | |m| | | |]; try discriminate.
    unfold bind, get, set_nextSessionId, set_replyCallbacks, add_event, _main2main,
      ipcMain_emit. cbn [_nextSessionId _replyCallbacks closures trace user].
    rewrite Hcore.
    change (own_listener (VStr "editor:sendreq2core")) with (Some On_sendreq2core).
    cbn -[own_listener listeners is_str]. unfold bind.
    rewrite (on_sendreq2core_no_listener env (run env fuel)) by done.
    eexists; split; [reflexivity|]. cbn. by rewrite <- app_assoc.
Qed.

(** C10: a call of [sendRequestToCore] that fails validation returns [null]
    and leaves the counter, the table of continuations and everything else
    as they were; one [Console.error] is all that leaves the module, and
    the dispatcher is not entered.  A call that passes validation never
    returns [null]. *)
Theorem sendRequestToCore_failure_is_atomic env rec message args st :
  (valid_request message args = false →
     ∃ d st', (∀ rec', sendRequestToCore env rec' message args st = (st', Ok VNull)) ∧
              only_adds st st' [Console_error d]) ∧
  (valid_request message args = true →
     (sendRequestToCore env rec message args st).2 ≠ Ok VNull).
Proof.
  unfold valid_request, sendRequestToCore. split.
  - destruct (is_string message); cbn [negb andb].
    + destruct (last args) as [[]|]; try discriminate; intros _;
        (do 2 eexists; split; [reflexivity | by repeat split]).
    + intros _. do 2 eexists; split; [reflexivity | by repeat split].
  - destruct (is_string message); cbn [negb andb]; [|discriminate].
    destruct (last args) as [[]|]; try discriminate. intros _.
    unfold bind, get, set_nextSessionId, set_replyCallbacks, add_event.
    destruct (_main2main _ _ _ _ _) as [st2 [b| |]]; simpl; discriminate.
Qed.

(** ** Sessions *)

(** C1: the continuation registered for a session id is applied at most
    once, whatever application code and whatever envelopes arrive.  The
    reply listener takes the entry out of [_replyCallbacks] before it
    applies the continuation, so the continuation already runs without it;
    a reply envelope for an id that is not pending changes nothing, and an
    id that has fired, or that was never handed out, is not pending (a
    cancelled one is not either, see C2). *)
Theorem reply_fires_at_most_once env :
  (∀ st sessionId, reachable env st → (fired_count sessionId st ≤ 1)%nat) ∧
  (∀ (rec : task U → M (State U) unit) event sessionId cb args st,
     _replyCallbacks st !! sessionId = Some cb →
     ∃ st1, _replyCallbacks st1 = delete sessionId (_replyCallbacks st) ∧
            trace st1 = trace st ++ [Fired sessionId cb args] ∧
            on_sendreq2core_reply rec event sessionId (VArr args) st
              = rec (TApply cb args) st1) ∧
  (∀ (rec : task U → M (State U) unit) event sessionId args st,
     _replyCallbacks st !! sessionId = None →
     on_sendreq2core_reply rec event sessionId args st = (st, Ok tt)) ∧
  (∀ st sessionId,
     reachable env st →
     (0 < fired_count sessionId st)%nat ∨ sessionId < 1000 ∨ _nextSessionId st ≤ sessionId →
     _replyCallbacks st !! sessionId = None).
Proof.
  repeat split.
  - intros st sessionId Hst.
    pose proof (credit_reachable env st sessionId Hst) as Hc.
    unfold credit in Hc. lia.
  - intros rec event sessionId cb args st Hcb.
    eexists {| _nextSessionId := _; _replyCallbacks := _; closures := _;
               trace := _; user := _ |}.
    split; [|split]; [| |unfold on_sendreq2core_reply, bind, get; rewrite Hcb; reflexivity];
      reflexivity.
  - intros rec event sessionId args st Hcb.
    unfold on_sendreq2core_reply, bind, get. by rewrite Hcb.
  - intros st sessionId Hst Hcases.
    pose proof (credit_reachable env st sessionId Hst) as Hc.
    destruct (reachable_Inv env st Hst) as [Hp _ _].
    unfold credit, slot, pending in *.
    destruct (_replyCallbacks st !! sessionId) eqn:E; [|done].
    assert (1000 ≤ sessionId < _nextSessionId st) by (apply Hp; rewrite E; by eexists).
    lia.
Qed.

(** C2: cancelling a pending session takes its entry out without applying
    the continuation; the continuation has not been applied before and is
    never applied afterwards, whatever arrives or runs later, a reply
    envelope for the id included; cancelling again changes nothing. *)
Theorem cancel_prevents_reply env st sessionId cb :
  reachable env st →
  _replyCallbacks st !! sessionId = Some cb →
  ∃ st1,
    cancelRequestToCore sessionId st = (st1, Ok tt) ∧
    _replyCallbacks st1 = delete sessionId (_replyCallbacks st) ∧
    trace st1 = trace st ∧
    _nextSessionId st1 = _nextSessionId st ∧
    fired_count sessionId st = 0%nat ∧
    cancelRequestToCore sessionId st1 = (st1, Ok tt) ∧
    (∀ (rec : task U → M (State U) unit) event args,
       on_sendreq2core_reply rec event sessionId args st1 = (st1, Ok tt)) ∧
    (∀ st2, reaches env st1 st2 → fired_count sessionId st2 = 0%nat).
Proof.
  intros Hst Hcb.
  pose proof (reachable_Inv env st Hst) as HI.
  pose proof (credit_reachable env st sessionId Hst) as Hc.
  destruct (delete_safe st sessionId HI) as [HI1 _].
  eexists. split; [reflexivity|]. cbn [_replyCallbacks trace _nextSessionId].
  assert (Hzero : fired_count sessionId st = 0%nat).
  { unfold credit, slot in Hc. rewrite Hcb in Hc. lia. }
  repeat split; auto.
  - unfold cancelRequestToCore, bind, get, set_replyCallbacks; simpl.
    by rewrite delete_delete_eq.
  - intros rec event args. unfold on_sendreq2core_reply, bind, get; simpl.
    by rewrite lookup_delete_eq.
  - intros st2 Hst2.
    destruct (reaches_safe env _ st2 Hst2 HI1) as [_ [Hm _ _]].
    specialize (Hm sessionId).
    assert (1000 ≤ sessionId < _nextSessionId st) by (apply HI; by eexists).
    unfold credit, slot, fired_count in *; simpl in Hm.
    rewrite lookup_delete_eq, Hzero in Hm.
    destruct (Z.leb_spec (_nextSessionId st) sessionId); lia.
Qed.

(** C3: the session ids handed out by [sendRequestToCore], in the order of
    the calls, are 1000, 1001, 1002, ... up to the counter: strictly
    increasing and without repetition, whatever else runs in between.
    [cancelRequestToCore] leaves the counter alone, the first id returned
    is 1000, and of two calls that return an id the later returns the
    larger. *)
Theorem session_ids_strictly_increasing env :
  (∀ st,
     reachable env st →
     requested_ids st = seqZ 1000 (_nextSessionId st - 1000) ∧
     StronglySorted Z.lt (requested_ids st) ∧
     NoDup (requested_ids st)) ∧
  (∀ sessionId st,
     _nextSessionId (cancelRequestToCore sessionId st).1 = _nextSessionId st) ∧
  (∀ u fuel message args st' sessionId,
     sendRequestToCore env (run env fuel) message args (init u)
       = (st', Ok (VNum sessionId)) →
     sessionId = 1000) ∧
  (∀ st fuel1 message1 args1 st1 id1 st1' fuel2 message2 args2 st2 id2,
     reachable env st →
     sendRequestToCore env (run env fuel1) message1 args1 st = (st1, Ok (VNum id1)) →
     reaches env st1 st1' →
     sendRequestToCore env (run env fuel2) message2 args2 st1' = (st2, Ok (VNum id2)) →
     id1 < id2).
Proof.
  split; [|split; [|split]].
  - intros st Hst. destruct (reachable_Inv env st Hst) as [_ _ Hr]. rewrite Hr.
    split; [done|]. split; [apply StronglySorted_seqZ | apply NoDup_seqZ].
  - done.
  - intros u fuel message args st' sessionId Hcall.
    by destruct (sendRequestToCore_returns env (run env fuel) (safe_run env fuel)
                   message args (init u) st' sessionId (Inv_init u) Hcall) as [-> _].
  - intros st fuel1 message1 args1 st1 id1 st1' fuel2 message2 args2 st2 id2
      Hst Hcall1 Hreach Hcall2.
    destruct (sendRequestToCore_returns env (run env fuel1) (safe_run env fuel1)
                message1 args1 st st1 id1 (reachable_Inv env st Hst) Hcall1)
      as (-> & Hlt & HI1).
    destruct (reaches_safe env st1 st1' Hreach HI1) as [HI2 [_ _ Hn]].
    destruct (sendRequestToCore_returns env (run env fuel2) (safe_run env fuel2)
                message2 args2 _ st2 id2 HI2 Hcall2) as (-> & _ & _).
    lia.
Qed.

(** ** Requests that arrive *)



(** ** The exclude-self option *)

Lemma _send2wins_only_adds env message args st :
  ∃ st', _send2wins env message args st = (st', Ok tt) ∧
         only_adds st st' ((λ win, SendToPage win (message :: args)) <$> Window_windows env).
Proof.
  unfold _send2wins. generalize (Window_windows env) as wins. intros wins. revert st.
  induction wins as [|w wins IH]; intros st; simpl.
  - eexists; split; [reflexivity|]. repeat split. simpl. by rewrite app_nil_r.
  - unfold bind at 1. unfold sendToPage at 1. simpl.
    destruct (IH ({| _nextSessionId := _nextSessionId st;
                     _replyCallbacks := _replyCallbacks st;
                     closures := closures st;
                     trace := trace st ++ [SendToPage w (message :: args)];
                     user := user st |})) as (st' & -> & Ht & Hn & Hc & Hcl & Hu).
    eexists; split; [reflexivity|]. simpl in *.
    repeat split; auto. by rewrite Ht, <- app_assoc.
Qed.

Lemma marker_needs_object o :
  truthy (get_field o "__ipc__") = true → truthy o && is_object o = true.
Proof. by destruct o. Qed.

(** C7, as the code has it: of the exports only [sendToAll] looks for the
    option.  [_popOption] takes the last argument off exactly when it is an
    object whose [__ipc__] marker is truthy, and leaves any other argument
    list alone; the option excludes self exactly when its [exclude] is
    ['self'].  [sendToAll] with [Ipc.excludeSelf] last sends the message and
    the remaining arguments to every window and skips the dispatch in the
    main process; otherwise it dispatches in the main process and sends to
    every window, in both cases without the option.  [sendToWins],
    [sendToMainWin], [sendToPanel] and [sendToMain] hand every argument
    on as it is, a trailing option included. *)
Theorem sendToAll_excludeSelf env rec message args st :
  (∀ o rest, _popOption args = (Some o, rest) ↔
             args = rest ++ [o] ∧ truthy (get_field o "__ipc__") = true) ∧
  ((∀ o, last args = Some o → truthy (get_field o "__ipc__") = false) →
     _popOption args = (None, args)) ∧
  (∀ opt, excludes_self opt = true ↔
          ∃ o, opt = Some o ∧ get_field o "exclude" = VStr "self") ∧
  (∀ front, args = front ++ [excludeSelf] →
     sendToAll env rec message args st = _send2wins env message front st ∧
     ∃ st', sendToAll env rec message args st = (st', Ok tt) ∧
            only_adds st st'
              ((λ win, SendToPage win (message :: front)) <$> Window_windows env)) ∧
  sendToAll env rec message args st =
    (let '(opt, rest) := _popOption args in
     if excludes_self opt then _send2wins env message rest
     else _main2main env rec message rest ;;; _send2wins env message rest) st ∧
  (∃ st', sendToWins env message args st = (st', Ok tt) ∧
          only_adds st st'
            ((λ win, SendToPage win (message :: args)) <$> Window_windows env)) ∧
  (∀ mainWin, Window_main env = Some mainWin →
     ∃ st', sendToMainWin env message args st = (st', Ok tt) ∧
            only_adds st st' [SendToPage mainWin (message :: args)]) ∧
  (∀ panelID win info,
     Panel_findWindow env panelID = Some win →
     Package_panelInfo env panelID = Some info →
     ∃ st' front, sendToPanel env panelID message args st = (st', Ok tt) ∧
                  only_adds st st' [SendToPage win (front ++ message :: args)]) ∧
  (∀ l, own_listener message = None → listeners env message = [l] →
     sendToMain env rec message args st = (rec (TRun (l SMain args)) ;;; ret tt) st).
Proof.
  assert (Hpop : ∀ front o, _popOption (front ++ [o]) =
            if truthy (get_field o "__ipc__") then (Some o, front)
            else (None, front ++ [o])).
  { intros front o. unfold _popOption. rewrite last_snoc, removelast_snoc.
    destruct (truthy (get_field o "__ipc__")) eqn:E.
    - by rewrite (marker_needs_object o E).
    - by rewrite andb_false_r. }
  assert (Hgen : sendToAll env rec message args st =
    (let '(opt, rest) := _popOption args in
     if excludes_self opt then _send2wins env message rest
     else _main2main env rec message rest ;;; _send2wins env message rest) st).
  { unfold sendToAll. destruct args as [|a args]; [reflexivity|].
    destruct (_popOption (a :: args)) as [opt rest].
    destruct (excludes_self opt); cbn [negb]; [reflexivity|].
    unfold bind. by destruct (_main2main env rec message rest st) as [? [| |]]. }
  split; [|split; [|split; [|split; [|split; [exact Hgen|split; [|split; [|split]]]]]]].
  - intros o rest. split.
    + destruct args as [|x front _] using rev_ind.
      * discriminate.
      * rewrite Hpop. destruct (truthy (get_field x "__ipc__")) eqn:E; [|discriminate].
        by intros [= -> ->].
    + intros [-> Hm]. by rewrite Hpop, Hm.
  - intros Hlast. destruct args as [|x front _] using rev_ind; [done|].
    rewrite Hpop, Hlast; [done | apply last_snoc].
  - intros [o|]; simpl.
    + rewrite is_str_true. split; [by eexists | by intros (? & [= <-] & ?)].
    + split; [discriminate | by intros (? & [=] & _)].
  - intros front ->. rewrite Hgen, Hpop. simpl. split; [done|].
    apply _send2wins_only_adds.
  - apply _send2wins_only_adds.
  - intros mainWin Hmain. unfold sendToMainWin. rewrite Hmain.
    eexists; split; [reflexivity | apply only_adds_add_event].
  - intros panelID win info Hwin Hinfo. unfold sendToPanel. rewrite Hwin, Hinfo.
    destruct (is_str "simple" (panel_type info)).
    + exists (add_event (SendToPage win (message :: args)) st).1, [].
      split; [reflexivity | apply only_adds_add_event].
    + exists (add_event (SendToPage win (VStr "editor:send2panel" :: panelID
                                          :: message :: args)) st).1,
        [VStr "editor:send2panel"; panelID].
      split; [reflexivity | apply only_adds_add_event].
  - intros l Hown Hl. unfold sendToMain, _main2main, ipcMain_emit.
    rewrite Hown, Hl. simpl. unfold bind.
    destruct args; unfold ret; simpl; by destruct (rec _ st) as [? [[]| |]].
Qed.

(** ** Broadcasts to the windows *)

Lemma for_each_sendToPage (wins : list window) (keep : window → bool) args st :
  ∃ st', for_each wins (λ win, if keep win then sendToPage win args else ret tt) st
           = (st', Ok tt) ∧
         only_adds st st' (page_deliveries (List.filter keep wins) args).
Proof.
  revert st. induction wins as [|w wins IH]; intros st; simpl.
  - eexists; split; [reflexivity|]. repeat split. simpl. by rewrite app_nil_r.
  - unfold bind at 1. destruct (keep w); simpl.
    + destruct (IH ({| _nextSessionId := _nextSessionId st;
                       _replyCallbacks := _replyCallbacks st;
                       closures := closures st;
                       trace := trace st ++ [SendToPage w args];
                       user := user st |})) as (st' & -> & Ht & Hn & Hc & Hcl & Hu).
      eexists; split; [reflexivity|]. simpl in *.
      repeat split; auto. by rewrite Ht, <- app_assoc.
    + destruct (IH st) as (st' & -> & H). by eexists.
Qed.

(** X1: [sendToWins] hands the message and its arguments to every window of
    [Window.windows], once each and in the order of the list, touches
    nothing else and returns; the number of deliveries is the number of
    windows, so with no window open it does nothing. *)
Theorem sendToWins_reaches_every_window env message args st :
  ∃ st', sendToWins env message args st = (st', Ok tt) ∧
         only_adds st st' (page_deliveries (Window_windows env) (message :: args)) ∧
         count (λ e, match e with SendToPage _ _ => true | _ => false end) (trace st')
         = (count (λ e, match e with SendToPage _ _ => true | _ => false end) (trace st)
            + length (Window_windows env))%nat.
Proof.
  destruct (_send2wins_only_adds env message args st) as (st' & E & Ha).
  exists st'. split; [exact E|]. split; [exact Ha|].
  destruct Ha as (Ht & _). rewrite Ht.
  rewrite count_app. f_equal. generalize (Window_windows env) as wins.
  induction wins as [|w wins IH]; simpl; [done | by rewrite <- IH].
Qed.

(** X2: [_main2renderersExclude] hands the arguments to the windows whose
    [webContents] is not the excluded one, in order, and to no other: the
    excluded window gets nothing, and when no window belongs to the
    excluded sender every window is served, as by [_send2wins]. *)
Theorem _main2renderersExclude_skips_the_sender env excluded message args st :
  ∃ st', _main2renderersExclude env excluded (message :: args) st = (st', Ok tt) ∧
         only_adds st st'
           (page_deliveries (windows_but excluded (Window_windows env)) (message :: args)) ∧
         (∀ win a, SendToPage win a ∈ page_deliveries
                     (windows_but excluded (Window_windows env)) (message :: args) →
                   win ∈ Window_windows env ∧ is_excluded win excluded = false) ∧
         ((∀ win, win ∈ Window_windows env → is_excluded win excluded = false) →
          _main2renderersExclude env excluded (message :: args) st
            = _send2wins env message args st).
Proof.
  unfold _main2renderersExclude.
  destruct (for_each_sendToPage (Window_windows env)
              (λ win, negb (is_excluded win excluded)) (message :: args) st)
    as (st' & E & Ha).
  exists st'. split; [exact E|]. split; [exact Ha|]. split.
  - intros win a Hin. unfold page_deliveries, windows_but in Hin.
    apply list_elem_of_fmap in Hin as (w & [= -> ->] & Hw).
    apply list_elem_of_In, filter_In in Hw as [Hw Hk].
    split; [by apply list_elem_of_In | by destruct (is_excluded w excluded)].
  - intros Hnone. unfold _send2wins.
    generalize dependent (Window_windows env). intros wins _ _ Hnone. revert st.
    induction wins as [|w wins IH]; intros st; [done|]. simpl.
    rewrite (Hnone w) by (by left). simpl. unfold bind.
    destruct (sendToPage w (message :: args) st) as [st1 [[]| |]]; try done.
    apply IH. intros win Hin. apply Hnone. by right.
Qed.

Lemma _popOption_snoc front o :
  _popOption (front ++ [o]) =
    if truthy (get_field o "__ipc__") then (Some o, front) else (None, front ++ [o]).
Proof.
  unfold _popOption. rewrite last_snoc, removelast_snoc.
  destruct (truthy (get_field o "__ipc__")) eqn:E.
  - by rewrite (marker_needs_object o E).
  - by rewrite andb_false_r.
Qed.

Lemma _popOption_unmarked args :
  (∀ o, last args = Some o → truthy (get_field o "__ipc__") = false) →
  _popOption args = (None, args).
Proof.
  intros Hlast. destruct args as [|x front _] using rev_ind; [done|].
  rewrite _popOption_snoc, Hlast; [done | apply last_snoc].
Qed.

Lemma _main2renderers_only_adds env message args st :
  ∃ st', _main2renderers env message args st = (st', Ok tt) ∧
         only_adds st st' (page_deliveries (Window_windows env) (message :: args)).
Proof. unfold _main2renderers. destruct args; apply _send2wins_only_adds. Qed.

Lemma _main2renderersExclude_only_adds env excluded args st :
  ∃ st', _main2renderersExclude env excluded args st = (st', Ok tt) ∧
         only_adds st st' (page_deliveries (windows_but excluded (Window_windows env)) args).
Proof. apply for_each_sendToPage. Qed.

(** X3: the ['editor:send2wins'] listener, a renderer's broadcast to the
    windows.  With [Ipc.excludeSelf] last the option is taken off and every
    window but the sender's gets the message; with an option whose
    [exclude] is not ['self'] the option is taken off and every window gets
    the message; with no option every window gets all the arguments.  The
    main process is never dispatched to. *)
Theorem renderer_broadcast_to_windows env event message args st :
  (∀ front, args = front ++ [excludeSelf] →
     ∃ st', _renderer2renderers env event message args st = (st', Ok tt) ∧
            only_adds st st'
              (page_deliveries (windows_but event (Window_windows env)) (message :: front))) ∧
  (∀ front o, args = front ++ [o] →
     truthy (get_field o "__ipc__") = true → get_field o "exclude" ≠ VStr "self" →
     ∃ st', _renderer2renderers env event message args st = (st', Ok tt) ∧
            only_adds st st' (page_deliveries (Window_windows env) (message :: front))) ∧
  ((∀ o, last args = Some o → truthy (get_field o "__ipc__") = false) →
     ∃ st', _renderer2renderers env event message args st = (st', Ok tt) ∧
            only_adds st st' (page_deliveries (Window_windows env) (message :: args))).
Proof.
  unfold _renderer2renderers. split; [|split].
  - intros front ->. rewrite _popOption_snoc. simpl.
    apply _main2renderersExclude_only_adds.
  - intros front o -> Hm Hex. rewrite _popOption_snoc, Hm. simpl.
    destruct (is_str "self" (get_field o "exclude")) eqn:E.
    + by apply is_str_true in E.
    + apply _main2renderers_only_adds.
  - intros Hlast. rewrite (_popOption_unmarked args Hlast). simpl.
    apply _main2renderers_only_adds.
Qed.

(** ** Dispatch in the main process *)

Lemma ipcMain_emit_no_listener env rec channel s args st :
  own_listener channel = None → listeners env channel = [] →
  channel ≠ VStr "error" →
  ipcMain_emit env rec channel s args st = (st, Ok false).
Proof.
  intros Hown Hnone Herr. unfold ipcMain_emit.
  by rewrite Hown, Hnone, (is_str_false _ _ Herr).
Qed.

(** ['error'] with nobody listening to it: [emit] throws. *)
Lemma ipcMain_emit_error env rec s args st :
  listeners env (VStr "error") = [] →
  ipcMain_emit env rec (VStr "error") s args st = (st, Throw).
Proof. intros Hnone. unfold ipcMain_emit. by rewrite Hnone. Qed.

Lemma ipcMain_emit_returns env rec channel s args st st' handled :
  ipcMain_emit env rec channel s args st = (st', Ok handled) →
  handled = negb (is_nil (match own_listener channel with Some h => [h] | None => [] end)
                  && is_nil (listeners env channel)).
Proof.
  unfold ipcMain_emit, bind.
  destruct (_ && _ && is_str "error" channel); [discriminate|].
  destruct (for_each _ _ st) as [st1 [[]| |]]; try discriminate.
  destruct (for_each _ _ st1) as [st2 [[]| |]]; try discriminate.
  by intros [= _ <-].
Qed.

(** X4: [sendToMain] reports "failed, not responded" with [Console.failed]
    when [emit] tells it that nobody listens to the message in the main
    process (nobody does, and the message is not ['error']): then that
    report is all that happens.  When somebody listens and the dispatch
    returns, [sendToMain] adds nothing to what the listeners did.  For the
    message ['error'] with nobody listening, [emit] throws: [sendToMain]
    throws with it and reports nothing. *)
Theorem sendToMain_reports_no_listener env rec message args st :
  (own_listener message = None → listeners env message = [] →
   message ≠ VStr "error" →
     ∃ st', sendToMain env rec message args st = (st', Ok tt) ∧
            only_adds st st' [Console_failed (SendToMainFailed message)]) ∧
  (∀ st' handled,
     own_listener message ≠ None ∨ listeners env message ≠ [] →
     _main2main env rec message args st = (st', Ok handled) →
     sendToMain env rec message args st = (st', Ok tt)) ∧
  (message = VStr "error" → listeners env message = [] →
     sendToMain env rec message args st = (st, Throw)).
Proof.
  unfold sendToMain. split; [|split].
  3: { intros -> Hnone. unfold bind, _main2main.
       by destruct args; rewrite ipcMain_emit_error. }
  - intros Hown Hnone Herr. unfold bind, _main2main.
    assert (E : ∀ a, ipcMain_emit env rec message SMain a st = (st, Ok false))
      by (intros; by apply ipcMain_emit_no_listener).
    destruct args; rewrite E; simpl;
      (eexists; split; [reflexivity | by repeat split]).
  - intros st' handled Hsome Hcall. unfold bind. rewrite Hcall.
    assert (handled = true) as ->; [|done].
    unfold _main2main in Hcall.
    assert (Hret : ∃ a, ipcMain_emit env rec message SMain a st = (st', Ok handled))
      by (destruct args; eauto).
    destruct Hret as [a Hret]. rewrite (ipcMain_emit_returns _ _ _ _ _ _ _ _ Hret).
    destruct Hsome as [Hown|Hl].
    + by destruct (own_listener message).
    + destruct (listeners env message); [done|]. simpl. by rewrite andb_false_r.
Qed.

(** X13: [sendToAll] never reports a message nobody listens to: when the
    main process has no listener for it, and the message is not ['error']
    or the option excludes self, the call only delivers the message, with
    the option taken off, to the windows ([sendToMain] reports the same
    situation with [Console.failed]).  For the message ['error'] with
    nobody listening and self not excluded, the dispatch in the main
    process throws and no window is served. *)
Theorem sendToAll_is_silent_without_listener env rec message args st :
  (own_listener message = None → listeners env message = [] →
   message ≠ VStr "error" ∨ excludes_self (_popOption args).1 = true →
     ∃ st', sendToAll env rec message args st = (st', Ok tt) ∧
            only_adds st st'
              (page_deliveries (Window_windows env) (message :: (_popOption args).2))) ∧
  (message = VStr "error" → listeners env message = [] →
   excludes_self (_popOption args).1 = false →
     sendToAll env rec message args st = (st, Throw)).
Proof.
  split.
  - intros Hown Hnone Hcase.
    assert (Hno : message ≠ VStr "error" →
                  ∀ a, _main2main env rec message a st = (st, Ok false)).
    { intros Herr a. unfold _main2main. destruct a; by apply ipcMain_emit_no_listener. }
    unfold sendToAll. destruct args as [|a args].
    + destruct Hcase as [Herr|Hex]; [|discriminate].
      unfold bind. rewrite (Hno Herr). apply _send2wins_only_adds.
    + destruct (_popOption (a :: args)) as [opt rest]. simpl in *.
      destruct (excludes_self opt); simpl; unfold bind.
      * apply _send2wins_only_adds.
      * destruct Hcase as [Herr|Hex]; [|discriminate].
        rewrite (Hno Herr). apply _send2wins_only_adds.
  - intros -> Hnone Hex.
    assert (Hthrow : ∀ a, _main2main env rec (VStr "error") a st = (st, Throw)).
    { intros a. unfold _main2main. destruct a; by apply ipcMain_emit_error. }
    unfold sendToAll. destruct args as [|a args].
    + unfold bind. by rewrite Hthrow.
    + destruct (_popOption (a :: args)) as [opt rest]. simpl in *.
      rewrite Hex. simpl. unfold bind. by rewrite Hthrow.
Qed.

(** X5: the ['editor:send2mainwin'] listener.  Without a main window it
    logs one [console.error] and delivers nothing.  With one, a message
    without arguments is delivered as [sendToMainWin] delivers it; a
    message with arguments is delivered with the event object in front of
    the message. *)
Theorem send2mainwin_listener env event message args st :
  (Window_main env = None →
     ∃ st', on_send2mainwin env event message args st = (st', Ok tt) ∧
            only_adds st st' [console_error (MainPageNotInitialized message)]) ∧
  (∀ mainWin, Window_main env = Some mainWin → args = [] →
     on_send2mainwin env event message args st = sendToMainWin env message [] st) ∧
  (∀ mainWin, Window_main env = Some mainWin → args ≠ [] →
     ∃ st', on_send2mainwin env event message args st = (st', Ok tt) ∧
            only_adds st st' [SendToPage mainWin (VEvent event :: message :: args)] ∧
            ∀ st'', sendToMainWin env message args st = (st'', Ok tt) →
                    trace st'' ≠ trace st').
Proof.
  unfold on_send2mainwin, sendToMainWin. split; [|split].
  - intros ->. eexists; split; [reflexivity | by repeat split].
  - by intros w -> ->.
  - intros w -> Hne. destruct args as [|a args]; [done|].
    eexists; split; [reflexivity|]. split; [by repeat split|].
    intros st'' [= <-]. simpl. intros H%app_inv_head. injection H as _ _ H.
    apply (f_equal length) in H. simpl in H. lia.
Qed.

(** X6: the ['editor:send2all'] listener, a renderer's broadcast to
    everyone.  The option is taken off, the main process is dispatched to
    first in every case (also with [Ipc.excludeSelf], unlike [sendToAll]),
    then the windows are served, all but the sender's with
    [Ipc.excludeSelf].  When nobody listens in the main process and the
    message is not ['error'], nothing is reported and only the deliveries
    happen; for the message ['error'] with nobody listening the dispatch
    throws and no window is served. *)
Theorem send2all_listener env rec event message args st :
  (∀ front, args = front ++ [excludeSelf] →
     on_send2all env rec event message args st =
       (_renderer2main env rec event message front ;;;
        _main2renderersExclude env event (message :: front)) st) ∧
  ((∀ o, last args = Some o → truthy (get_field o "__ipc__") = false) →
     on_send2all env rec event message args st =
       (_renderer2main env rec event message args ;;;
        _main2renderers env message args) st) ∧
  (∀ front, args = front ++ [excludeSelf] →
     own_listener message = None → listeners env message = [] →
     message ≠ VStr "error" →
     ∃ st', on_send2all env rec event message args st = (st', Ok tt) ∧
            only_adds st st'
              (page_deliveries (windows_but event (Window_windows env)) (message :: front))) ∧
  ((∀ o, last args = Some o → truthy (get_field o "__ipc__") = false) →
     own_listener message = None → listeners env message = [] →
     message ≠ VStr "error" →
     ∃ st', on_send2all env rec event message args st = (st', Ok tt) ∧
            only_adds st st' (page_deliveries (Window_windows env) (message :: args))) ∧
  (message = VStr "error" → listeners env message = [] →
     on_send2all env rec event message args st = (st, Throw)).
Proof.
  assert (Hno : own_listener message = None → listeners env message = [] →
                message ≠ VStr "error" →
                ∀ a, _renderer2main env rec event message a st = (st, Ok false)).
  { intros Hown Hnone Herr a. unfold _renderer2main.
    destruct a; by apply ipcMain_emit_no_listener. }
  unfold on_send2all. split; [|split; [|split; [|split]]].
  - intros front ->. by rewrite _popOption_snoc.
  - intros Hlast. by rewrite (_popOption_unmarked args Hlast).
  - intros front -> Hown Hnone Herr. rewrite _popOption_snoc. simpl.
    unfold bind. rewrite (Hno Hown Hnone Herr). apply _main2renderersExclude_only_adds.
  - intros Hlast Hown Hnone Herr. rewrite (_popOption_unmarked args Hlast). simpl.
    unfold bind. rewrite (Hno Hown Hnone Herr). apply _main2renderers_only_adds.
  - intros -> Hnone. destruct (_popOption args) as [opt rest]. unfold bind, _renderer2main.
    by destruct rest; rewrite ipcMain_emit_error.
Qed.

(** X7: the envelope [sendToPanel] delivers for a panel that is not
    ['simple'] is the channel ['editor:send2panel'] followed by the
    arguments of the call; the listener of that channel, given those
    arguments, makes the same [sendToPanel] call again, whoever sent
    them. *)
Theorem send2panel_envelope_round_trip env fuel panelID message args st :
  ∀ win info,
    Panel_findWindow env panelID = Some win →
    Package_panelInfo env panelID = Some info →
    panel_type info ≠ VStr "simple" →
    ∃ st' payload,
      sendToPanel env panelID message args st = (st', Ok tt) ∧
      trace st' = trace st ++ [SendToPage win (VStr "editor:send2panel" :: payload)] ∧
      own_listener (VStr "editor:send2panel") = Some On_send2panel ∧
      ∀ s st2, run env (S fuel) (THandle On_send2panel s payload) st2
               = sendToPanel env panelID message args st2.
Proof.
  intros win info Hw Hi Ht. unfold sendToPanel at 1. rewrite Hw, Hi.
  destruct (is_str "simple" (panel_type info)) eqn:E; [by apply is_str_true in E|].
  eexists _, (panelID :: message :: args). split; [reflexivity|].
  split; [reflexivity|]. split; [reflexivity|]. reflexivity.
Qed.

(** ** The session table *)

(** X9: [cancelRequestToCore] of an id that is not pending (never handed
    out, already answered or already cancelled) changes nothing; in
    particular it does not use up an id that is still to come. *)
Theorem cancel_of_unknown_id_is_a_no_op st sessionId :
  _replyCallbacks st !! sessionId = None →
  cancelRequestToCore sessionId st = (st, Ok tt) ∧
  ∀ env rec message front reply,
    is_string message = true →
    sendRequestToCore env rec message (front ++ [VFun reply])
      (cancelRequestToCore sessionId st).1
    = sendRequestToCore env rec message (front ++ [VFun reply]) st.
Proof.
  intros Hnone.
  assert (E : cancelRequestToCore sessionId st = (st, Ok tt)).
  { unfold cancelRequestToCore, bind, get, set_replyCallbacks. simpl.
    rewrite delete_id by done. by destruct st. }
  split; [exact E|]. intros. by rewrite E.
Qed.

(** X10: the books of the session table in every reachable state.  A
    pending id was handed out by [sendRequestToCore] and has not fired; an
    id that has fired was handed out, so no continuation is ever applied
    for a session nobody requested; the counter starts at 1000 and never
    goes down. *)
Theorem session_table_bookkeeping env st sessionId :
  reachable env st →
  (pending st sessionId →
     sessionId ∈ requested_ids st ∧ fired_count sessionId st = 0%nat) ∧
  ((0 < fired_count sessionId st)%nat → sessionId ∈ requested_ids st) ∧
  1000 ≤ _nextSessionId st ∧
  (∀ st', reaches env st st' → _nextSessionId st ≤ _nextSessionId st').
Proof.
  intros Hst. pose proof (reachable_Inv env st Hst) as HI.
  destruct HI as [Hp Hn Hr].
  assert (Hin : ∀ s, 1000 ≤ s < _nextSessionId st → s ∈ requested_ids st).
  { intros s Hs. rewrite Hr. apply elem_of_seqZ. lia. }
  destruct Hst as [u Hreach].
  destruct (reaches_safe env (init u) st Hreach (Inv_init u)) as [_ [Hc _ _]].
  specialize (Hc sessionId). unfold credit, slot, fired_count in Hc. simpl in Hc.
  rewrite lookup_empty in Hc.
  split; [|split; [|split]].
  - intros Hpend. split; [by apply Hin, Hp|].
    destruct Hpend as [cb Hcb]. rewrite Hcb in Hc. unfold fired_count.
    destruct (1000 <=? sessionId); lia.
  - intros Hf. apply Hin. unfold fired_count in Hf.
    destruct (_replyCallbacks st !! sessionId) eqn:E.
    + apply Hp. unfold pending. rewrite E. by eexists.
    + destruct (Z.leb_spec (_nextSessionId st) sessionId),
        (Z.leb_spec 1000 sessionId); lia.
  - exact Hn.
  - intros st' Hst'.
    assert (HI : Inv st) by (split; assumption).
    by destruct (reaches_safe env st st' Hst' HI) as [_ [_ _ Hm]].
Qed.

(** ** Requests answered *)

Lemma own_core : own_listener (VStr "editor:sendreq2core") = Some On_sendreq2core.
Proof. reflexivity. Qed.
Lemma own_reply : own_listener (VStr "editor:sendreq2core:reply") = Some On_sendreq2core_reply.
Proof. reflexivity. Qed.

(** The reply envelope of a pending session whose continuation does
    nothing more: the entry goes and the continuation is applied. *)
Lemma run_reply_listener env fuel s sessionId n reply_args st :
  _replyCallbacks st !! sessionId = Some (FUser n) →
  user_fun env n reply_args = Done →
  run env (2 + fuel) (THandle On_sendreq2core_reply s [VNum sessionId; VArr reply_args]) st
  = ({| _nextSessionId := _nextSessionId st;
        _replyCallbacks := delete sessionId (_replyCallbacks st);
        closures := closures st;
        trace := trace st ++ [Fired sessionId (FUser n) reply_args];
        user := user st |}, Ok tt).
Proof.
  intros Hcb Hfun. simpl. unfold on_sendreq2core_reply, bind, get. simpl.
  rewrite Hcb. simpl. by rewrite Hfun.
Qed.

(** The first call of the reply function of a request that came from the
    main process itself. *)
Lemma run_reply_function env fuel cell c sessionId n reply_args st :
  closures st !! cell = Some c → called c = false →
  rc_sender c = SMain → rc_sessionId c = VNum sessionId →
  _replyCallbacks st !! sessionId = Some (FUser n) →
  user_fun env n reply_args = Done →
  listeners env (VStr "editor:sendreq2core:reply") = [] →
  run env (3 + fuel) (TApply (FReply cell) reply_args) st
  = ({| _nextSessionId := _nextSessionId st;
        _replyCallbacks := delete sessionId (_replyCallbacks st);
        closures := <[cell := set_called c]> (closures st);
        trace := trace st ++ [Replied cell reply_args; Fired sessionId (FUser n) reply_args];
        user := user st |}, Ok tt).
Proof.
  intros Hcell Hc Hs Hid Hcb Hfun Hreply.
  change (run env (3 + fuel) (TApply (FReply cell) reply_args) st)
    with (_replyCallback env (run env (2 + fuel)) cell reply_args st).
  unfold _replyCallback, bind at 1, get. rewrite Hcell, Hc, Hs, Hid.
  unfold bind at 1 2, set_closures, add_event.
  cbn [_nextSessionId _replyCallbacks closures trace user].
  unfold sender_send, arg0, rest_from. cbn [hd drop].
  unfold _main2main, ipcMain_emit. rewrite own_reply, Hreply.
  cbn [for_each is_nil andb negb]. unfold bind.
  rewrite (run_reply_listener env fuel SMain sessionId n reply_args) by done.
  unfold ret. cbn [_nextSessionId _replyCallbacks closures trace user].
  by rewrite <- app_assoc.
Qed.

(** X8: a request of the main process to itself, answered once.  When the
    one listener of the message calls the reply function it is given once,
    with [reply_args], and the continuation does nothing more, then
    [sendRequestToCore] returns the new session id after the request has
    gone out, the reply function has sent, and the continuation has been
    applied to [reply_args] once; nothing is left pending and nothing is
    reported. *)
Theorem request_round_trip env fuel message front n reply_args
    (l : sender → list value → prog U) st :
  is_string message = true →
  own_listener message = None →
  listeners env message = [l] →
  (∀ s reply, l s (reply :: front) = Do (Call reply reply_args) (λ _, Done)) →
  listeners env (VStr "editor:sendreq2core") = [] →
  listeners env (VStr "editor:sendreq2core:reply") = [] →
  user_fun env n reply_args = Done →
  reachable env st →
  ∃ st', sendRequestToCore env (run env (5 + fuel)) message (front ++ [VFun (FUser n)]) st
           = (st', Ok (VNum (_nextSessionId st))) ∧
         trace st' = trace st ++
           [Requested (_nextSessionId st) message front;
            Replied (length (closures st)) reply_args;
            Fired (_nextSessionId st) (FUser n) reply_args] ∧
         _replyCallbacks st' = _replyCallbacks st ∧
         _nextSessionId st' = _nextSessionId st + 1.
Proof.
  intros Hs Hown Hl Hld Hcore Hreply Hfun Hst.
  assert (Hfresh : _replyCallbacks st !! _nextSessionId st = None).
  { destruct (reachable_Inv env st Hst) as [Hp _ _].
    destruct (_replyCallbacks st !! _nextSessionId st) eqn:E; [|done].
    assert (1000 ≤ _nextSessionId st < _nextSessionId st); [|lia].
    apply Hp. unfold pending. rewrite E. by eexists. }
  unfold sendRequestToCore. rewrite Hs, last_snoc, removelast_snoc. cbn [negb].
  unfold bind at 1 2 3 4 5. unfold get, set_nextSessionId, set_replyCallbacks, add_event.
  cbn [_nextSessionId _replyCallbacks closures trace user].
  unfold _main2main, ipcMain_emit. rewrite own_core, Hcore.
  cbn [for_each is_nil andb negb].
  change (run env (5 + fuel) (THandle On_sendreq2core SMain
            [message; VNum (_nextSessionId st); VArr front]))
    with (on_sendreq2core env (run env (4 + fuel)) SMain message
            (VNum (_nextSessionId st)) (VArr front)).
  unfold on_sendreq2core, new_replyCallback, spread, bind, get, set_closures, ret.
  cbn [_nextSessionId _replyCallbacks closures trace user].
  unfold _renderer2main, ipcMain_emit. rewrite Hown, Hl.
  cbn [for_each is_nil andb negb]. rewrite Hld. unfold bind, ret.
  change (run env (4 + fuel) (TRun (Do (Call (VFun (FReply (length (closures st)))) reply_args)
                                      (λ _, Done))))
    with (run_prog env (run env (3 + fuel))
            (Do (Call (VFun (FReply (length (closures st)))) reply_args) (λ _, Done))).
  unfold run_prog, exec_call, bind, ret.
  erewrite (run_reply_function env fuel (length (closures st)) _ (_nextSessionId st) n reply_args).
  2: { simpl. by apply list_lookup_middle. }
  2-4: done.
  2: { simpl. apply lookup_insert_eq. }
  2-3: done.
  simpl. eexists; split; [reflexivity|]. simpl.
  split; [by rewrite <- !app_assoc|]. split; [|done].
  rewrite delete_insert_eq. by apply delete_id.
Qed.

(** X12: a request of a renderer, answered once.  The listener of the
    message gets the reply function in front of the request's arguments;
    when it calls it once with [reply_args], the envelope
    ['editor:sendreq2core:reply', sessionId, reply_args] is sent to the
    renderer that asked, with the session id it sent; the session table of
    the main process is not touched and nothing is reported. *)
Theorem renderer_request_is_answered env fuel wc message sessionId front reply_args
    (l : sender → list value → prog U) st :
  own_listener message = None →
  listeners env message = [l] →
  (∀ s reply, l s (reply :: front) = Do (Call reply reply_args) (λ _, Done)) →
  ∃ st', run env (4 + fuel)
           (THandle On_sendreq2core (SRenderer wc) [message; sessionId; VArr front]) st
           = (st', Ok tt) ∧
         trace st' = trace st ++
           [Replied (length (closures st)) reply_args;
            WebContentsSend wc
              [VStr "editor:sendreq2core:reply"; sessionId; VArr reply_args]] ∧
         _replyCallbacks st' = _replyCallbacks st ∧
         _nextSessionId st' = _nextSessionId st ∧
         closures st' = closures st ++
           [{| rc_sender := SRenderer wc; rc_message := message;
               rc_sessionId := sessionId; called := true |}].
Proof.
  intros Hown Hl Hld.
  change (run env (4 + fuel)
            (THandle On_sendreq2core (SRenderer wc) [message; sessionId; VArr front]))
    with (on_sendreq2core env (run env (3 + fuel)) (SRenderer wc) message sessionId
            (VArr front)).
  unfold on_sendreq2core, new_replyCallback, spread, bind, get, set_closures, ret.
  cbn [_nextSessionId _replyCallbacks closures trace user].
  unfold _renderer2main, ipcMain_emit. rewrite Hown, Hl.
  cbn [for_each is_nil andb negb]. rewrite Hld. unfold bind, ret.
  change (run env (3 + fuel)
            (TRun (Do (Call (VFun (FReply (length (closures st)))) reply_args) (λ _, Done))))
    with (run_prog env (run env (2 + fuel))
            (Do (Call (VFun (FReply (length (closures st)))) reply_args) (λ _, Done))).
  unfold run_prog, exec_call, bind, ret.
  change (run env (2 + fuel) (TApply (FReply (length (closures st))) reply_args))
    with (_replyCallback env (run env (1 + fuel)) (length (closures st)) reply_args).
  unfold _replyCallback, bind, get. cbn [_nextSessionId _replyCallbacks closures trace user].
  rewrite list_lookup_middle by done. simpl.
  eexists; split; [reflexivity|]. simpl.
  split; [by rewrite <- app_assoc|]. split; [done|]. split; [done|].
  rewrite insert_app_r_alt by done. by rewrite Nat.sub_diag.
Qed.

(** X11: reply functions do not share their flag.  Calling the reply
    function of one request, once, and then that of another both send,
    each to the renderer of its own request with its own session id;
    after that a second call of the first is the only error. *)
Theorem reply_functions_are_independent env rec cell1 cell2 c1 c2 args1 args2 wc1 wc2 st :
  cell1 ≠ cell2 →
  closures st !! cell1 = Some c1 → called c1 = false → rc_sender c1 = SRenderer wc1 →
  closures st !! cell2 = Some c2 → called c2 = false → rc_sender c2 = SRenderer wc2 →
  ∃ st1 st2 st3,
    _replyCallback env rec cell1 args1 st = (st1, Ok tt) ∧
    _replyCallback env rec cell2 args2 st1 = (st2, Ok tt) ∧
    _replyCallback env rec cell1 args1 st2 = (st3, Ok tt) ∧
    trace st3 = trace st ++
      [Replied cell1 args1;
       WebContentsSend wc1 [VStr "editor:sendreq2core:reply"; rc_sessionId c1; VArr args1];
       Replied cell2 args2;
       WebContentsSend wc2 [VStr "editor:sendreq2core:reply"; rc_sessionId c2; VArr args2];
       Console_error (ReplyCalledTwice (rc_message c1))].
Proof.
  intros Hne H1 Hc1 Hs1 H2 Hc2 Hs2.
  assert (Hlt1 : (cell1 < length (closures st))%nat) by (by eapply lookup_lt_Some).
  unfold _replyCallback at 1. unfold bind, get. rewrite H1, Hc1, Hs1. simpl.
  eexists. eexists. eexists. split; [reflexivity|].
  unfold _replyCallback at 1. unfold bind, get. simpl.
  rewrite list_lookup_insert_ne, H2, Hc2, Hs2 by done. simpl.
  split; [reflexivity|].
  unfold _replyCallback at 1. unfold bind, get. simpl.
  rewrite list_lookup_insert_ne by done. rewrite list_lookup_insert_eq by done.
  simpl. split; [reflexivity|]. simpl. by rewrite <- !app_assoc.
Qed.

End Proofs.

Lemma sendToMainWin_witness :
  ∃ st', sendToMainWin demo_env_starting (VStr "status") [] (init tt) = (st', Ok tt) ∧
         only_adds (init tt) st' [console_error (MainWindowNotFound (VStr "status"))].
Proof.
  apply (sendToMainWin_absent_or_present demo_env_starting (VStr "status") [] (init tt)).
  reflexivity.
Defined.

Lemma sendToPanel_witness :
  ∃ st', sendToPanel demo_env (VStr "pkg.panel") (VStr "refresh") [] (init tt) = (st', Ok tt) ∧
         only_adds (init tt) st'
           [SendToPage win1 [VStr "editor:send2panel"; VStr "pkg.panel"; VStr "refresh"]].
Proof.
  apply (proj1 (proj2 (sendToPanel_by_kind demo_env (VStr "pkg.panel") (VStr "refresh")
                         [] (init tt))) win1 {| panel_type := VStr "dockable" |});
    [reflexivity | reflexivity | discriminate].
Defined.

(** C4, as the specification has it, fails twice.  The empty string is a
    string, so a request with it is registered and its id returned.  And
    a request that passes validation does not return its id when the
    dispatch throws: with the message ['error'] and nobody listening to
    it, [emit] throws after the continuation was stored and the counter
    advanced. *)
Lemma sendRequestToCore_accepts_empty_message :
  ¬ spec_non_empty_string (VStr "") ∧
  (sendRequestToCore demo_env (run demo_env 5) (VStr "") [VFun (FUser 0)] (init tt)).2
    = Ok (VNum 1000) ∧
  _replyCallbacks
    (sendRequestToCore demo_env (run demo_env 5) (VStr "") [VFun (FUser 0)] (init tt)).1
    !! 1000 = Some (FUser 0) ∧
  spec_non_empty_string (VStr "error") ∧
  (sendRequestToCore demo_env (run demo_env 5) (VStr "error") [VFun (FUser 0)] (init tt)).2
    = Throw ∧
  _replyCallbacks
    (sendRequestToCore demo_env (run demo_env 5) (VStr "error") [VFun (FUser 0)] (init tt)).1
    !! 1000 = Some (FUser 0) ∧
  _nextSessionId
    (sendRequestToCore demo_env (run demo_env 5) (VStr "error") [VFun (FUser 0)] (init tt)).1
    = 1001.
Proof.
  split; [|split; [|split; [|split; [|split; [|split]]]]].
  - intros (s & [= <-] & Hs). by apply Hs.
  - reflexivity.
  - reflexivity.
  - by eexists.
  - reflexivity.
  - reflexivity.
  - reflexivity.
Qed.

Lemma sendRequestToCore_witness :
  ∃ st', sendRequestToCore demo_env (run demo_env 3) (VStr "nobody")
           [VNum 1; VFun (FUser 0)] (init tt) = (st', Ok (VNum 1000)) ∧
         _nextSessionId st' = 1001 ∧
         _replyCallbacks st' = <[1000 := FUser 0]> ∅ ∧
         trace st' = [Requested 1000 (VStr "nobody") [VNum 1];
                      Console_error (ListenerNotRegistered (VStr "nobody"))].
Proof.
  apply (proj2 (proj2 (proj2 (proj2
           (sendRequestToCore_validates demo_env (run demo_env 3) (VStr "nobody")
              [VNum 1; VFun (FUser 0)] (init tt))))) [VNum 1] (FUser 0) 2%nat);
    first [reflexivity | discriminate].
Defined.

Lemma sendRequestToCore_failure_witness :
  ∃ d st', (∀ rec', sendRequestToCore demo_env rec' (VNum 7) [VFun (FUser 0)] (init tt)
                      = (st', Ok VNull)) ∧
           only_adds (init tt) st' [Console_error d].
Proof.
  apply (proj1 (sendRequestToCore_failure_is_atomic demo_env (run demo_env 0) (VNum 7)
                  [VFun (FUser 0)] (init tt))).
  reflexivity.
Defined.

(** ** The scenarios of the specification *)

(** ['getVersion'] is answered once: id 1000, the reply function sends, the
    continuation is applied with ['1.2.3'], and nothing stays pending. *)
Example getVersion_round_trip :
  trace demo_answered
    = [Requested 1000 (VStr "getVersion") [];
       Replied 0 [VStr "1.2.3"];
       Fired 1000 (FUser 0) [VStr "1.2.3"]] ∧
  _replyCallbacks demo_answered = ∅ ∧
  _nextSessionId demo_answered = 1001.
Proof. by vm_compute. Qed.

(** A continuation that itself sends a second reply envelope for its own
    session finds the entry gone: it is applied once. *)
Example reentrant_reply_is_dropped :
  trace (run_turns demo_env 12 [request_getVersion 1] (init tt))
    = [Requested 1000 (VStr "getVersion") [];
       Replied 0 [VStr "1.2.3"];
       Fired 1000 (FUser 1) [VStr "1.2.3"]].
Proof. by vm_compute. Qed.

(** A listener that calls the reply function twice: one envelope leaves
    for the renderer, the second call is an error. *)
Example second_reply_is_an_error :
  trace (run_turns demo_env 9 [inbound_request "twice" 12] (init tt))
    = [Replied 0 [VStr "a"];
       WebContentsSend 12 [VStr "editor:sendreq2core:reply"; VNum 7; VArr [VStr "a"]];
       Console_error (ReplyCalledTwice (VStr "twice"))].
Proof. by vm_compute. Qed.

(** [sendToAll('ping', 'x', Ipc.excludeSelf)] reaches both windows and not
    the main process. *)
Example sendToAll_excludeSelf_scenario :
  trace (run_turns demo_env 9
           [Do (Ipc_sendToAll (VStr "ping") [VStr "x"; excludeSelf]) (λ _, Done)] (init tt))
    = [SendToPage win1 [VStr "ping"; VStr "x"];
       SendToPage win2 [VStr "ping"; VStr "x"]].
Proof. by vm_compute. Qed.

(** ** Instances *)

Lemma reply_witness :
  on_sendreq2core_reply (run demo_env 5) SMain 1000 (VArr [VStr "1.2.3"])
    demo_answered = (demo_answered, Ok tt).
Proof.
  apply (proj1 (proj2 (proj2 (reply_fires_at_most_once demo_env)))).
  vm_compute. reflexivity.
Defined.

Lemma cancel_witness :
  reachable demo_env demo_pending ∧
  _replyCallbacks demo_pending !! 1001 = Some (FUser 2) ∧
  ∃ st1, cancelRequestToCore 1001 demo_pending = (st1, Ok tt) ∧
         ∀ st2, reaches demo_env st1 st2 → fired_count 1001 st2 = 0%nat.
Proof.
  assert (Hr : reachable demo_env demo_pending) by apply reachable_run_turns.
  assert (Hp : _replyCallbacks demo_pending !! 1001 = Some (FUser 2)).
  { vm_compute. reflexivity. }
  split; [exact Hr|]. split; [exact Hp|].
  destruct (cancel_prevents_reply demo_env demo_pending 1001 (FUser 2) Hr Hp)
    as (st1 & Hc & _ & _ & _ & _ & _ & _ & Hnever).
  exists st1. split; [exact Hc | exact Hnever].
Defined.

Lemma session_ids_witness :
  reachable demo_env (init tt) ∧
  (sendRequestToCore demo_env (run demo_env 9) (VStr "getVersion") [VFun (FUser 0)]
     (init tt)).2 = Ok (VNum 1000) ∧
  (sendRequestToCore demo_env (run demo_env 9) (VStr "slowOp") [VFun (FUser 2)]
     (run_turns demo_env 9 [Do (Ipc_cancelRequestToCore 1000) (λ _, Done)]
        (sendRequestToCore demo_env (run demo_env 9) (VStr "getVersion") [VFun (FUser 0)]
           (init tt)).1)).2 = Ok (VNum 1001) ∧
  1000 < 1001.
Proof.
  split; [apply reachable_init|]. split; [by vm_compute|]. split; [by vm_compute|].
  eapply (proj2 (proj2 (proj2 (session_ids_strictly_increasing demo_env)))
            (init tt) 9%nat (VStr "getVersion") [VFun (FUser 0)] _ 1000 _
            9%nat (VStr "slowOp") [VFun (FUser 2)] _ 1001).
  - apply reachable_init.
  - vm_compute. reflexivity.
  - apply (reaches_run_turns demo_env 9 [Do (Ipc_cancelRequestToCore 1000) (λ _, Done)]).
  - vm_compute. reflexivity.
Defined.




(** C7, as the specification has it, fails twice.  The exports other than
    [sendToAll] do not look for the option: [sendToWins], [sendToMainWin],
    [sendToPanel] and [sendToMain] pass a trailing [Ipc.excludeSelf] on as
    an ordinary argument.  And in [sendToAll] an option that carries the
    marker but excludes something else than self is taken off the
    arguments without excluding self: the main process is still
    dispatched to. *)
Lemma sendToWins_passes_the_option_on :
  _popOption [VStr "x"; excludeSelf] = (Some excludeSelf, [VStr "x"]) ∧
  trace (sendToWins demo_env (VStr "ping") [VStr "x"; excludeSelf] (init tt)).1
    = [SendToPage win1 [VStr "ping"; VStr "x"; excludeSelf];
       SendToPage win2 [VStr "ping"; VStr "x"; excludeSelf]] ∧
  trace (sendToMainWin demo_env (VStr "ping") [VStr "x"; excludeSelf] (init tt)).1
    = [SendToPage win1 [VStr "ping"; VStr "x"; excludeSelf]] ∧
  trace (sendToPanel demo_env (VStr "pkg.simple") (VStr "ping") [VStr "x"; excludeSelf]
           (init tt)).1
    = [SendToPage win2 [VStr "ping"; VStr "x"; excludeSelf]] ∧
  trace (sendToMain demo_env_echo (run demo_env_echo 5) (VStr "echo")
           [VStr "x"; excludeSelf] (init tt)).1
    = [SendToPage win1 [VStr "echoed"; VStr "x"; excludeSelf]] ∧
  _popOption [VStr "x"; exclude_other] = (Some exclude_other, [VStr "x"]) ∧
  excludes_self (Some exclude_other) = false ∧
  trace (sendToAll demo_env_echo (run demo_env_echo 5) (VStr "echo")
           [VStr "x"; exclude_other] (init tt)).1
    = [SendToPage win1 [VStr "echoed"; VStr "x"];
       SendToPage win1 [VStr "echo"; VStr "x"];
       SendToPage win2 [VStr "echo"; VStr "x"]].
Proof. by vm_compute. Qed.

Lemma sendToAll_witness :
  sendToAll demo_env (run demo_env 5) (VStr "ping") [VStr "x"; excludeSelf] (init tt)
    = _send2wins demo_env (VStr "ping") [VStr "x"] (init tt) ∧
  ∃ st', sendToAll demo_env (run demo_env 5) (VStr "ping") [VStr "x"; excludeSelf] (init tt)
           = (st', Ok tt) ∧
         only_adds (init tt) st'
           [SendToPage win1 [VStr "ping"; VStr "x"];
            SendToPage win2 [VStr "ping"; VStr "x"]].
Proof.
  apply (proj1 (proj2 (proj2 (proj2
           (sendToAll_excludeSelf demo_env (run demo_env 5) (VStr "ping")
              [VStr "x"; excludeSelf] (init tt))))) [VStr "x"]).
  reflexivity.
Defined.

(** ** Instances of the further properties *)

Lemma _main2renderersExclude_witness :
  _main2renderersExclude demo_env SMain [VStr "ping"; VStr "x"] (init tt)
    = _send2wins demo_env (VStr "ping") [VStr "x"] (init tt).
Proof.
  destruct (_main2renderersExclude_skips_the_sender demo_env SMain (VStr "ping")
              [VStr "x"] (init tt)) as (st' & _ & _ & _ & Hall).
  apply Hall. intros win _. reflexivity.
Defined.

Lemma renderer_broadcast_witness :
  ∃ st', _renderer2renderers demo_env (SRenderer 12) (VStr "ping")
           [VStr "x"; excludeSelf] (init tt) = (st', Ok tt) ∧
         only_adds (init tt) st' [SendToPage win1 [VStr "ping"; VStr "x"]].
Proof.
  apply (proj1 (renderer_broadcast_to_windows demo_env (SRenderer 12) (VStr "ping")
                  [VStr "x"; excludeSelf] (init tt)) [VStr "x"]).
  reflexivity.
Defined.

Lemma sendToMain_witness :
  ∃ st', sendToMain demo_env (run demo_env 5) (VStr "nobody") [VStr "x"] (init tt)
           = (st', Ok tt) ∧
         only_adds (init tt) st' [Console_failed (SendToMainFailed (VStr "nobody"))].
Proof.
  apply (proj1 (sendToMain_reports_no_listener demo_env (run demo_env 5) (VStr "nobody")
                  [VStr "x"] (init tt))); [reflexivity | reflexivity | discriminate].
Defined.

Lemma send2mainwin_witness :
  ∃ st', on_send2mainwin demo_env (SRenderer 12) (VStr "status") [VStr "x"] (init tt)
           = (st', Ok tt) ∧
         only_adds (init tt) st'
           [SendToPage win1 [VEvent (SRenderer 12); VStr "status"; VStr "x"]] ∧
         ∀ st'', sendToMainWin demo_env (VStr "status") [VStr "x"] (init tt) = (st'', Ok tt) →
                 trace st'' ≠ trace st'.
Proof.
  apply (proj2 (proj2 (send2mainwin_listener demo_env (SRenderer 12) (VStr "status")
                         [VStr "x"] (init tt))) win1); [reflexivity | discriminate].
Defined.

Lemma send2all_witness :
  ∃ st', on_send2all demo_env (run demo_env 5) (SRenderer 12) (VStr "ping")
           [VStr "x"; excludeSelf] (init tt) = (st', Ok tt) ∧
         only_adds (init tt) st' [SendToPage win1 [VStr "ping"; VStr "x"]].
Proof.
  apply (proj1 (proj2 (proj2 (send2all_listener demo_env (run demo_env 5) (SRenderer 12)
                                (VStr "ping") [VStr "x"; excludeSelf] (init tt))))
           [VStr "x"]); [reflexivity | reflexivity | reflexivity | discriminate].
Defined.

Lemma send2panel_witness :
  ∃ st' payload,
    sendToPanel demo_env (VStr "pkg.panel") (VStr "refresh") [VNum 1] (init tt)
      = (st', Ok tt) ∧
    trace st' = trace (init tt) ++ [SendToPage win1 (VStr "editor:send2panel" :: payload)] ∧
    own_listener (VStr "editor:send2panel") = Some On_send2panel ∧
    ∀ s st2, run demo_env 3 (THandle On_send2panel s payload) st2
             = sendToPanel demo_env (VStr "pkg.panel") (VStr "refresh") [VNum 1] st2.
Proof.
  apply (send2panel_envelope_round_trip demo_env 2 (VStr "pkg.panel") (VStr "refresh")
           [VNum 1] (init tt) win1 {| panel_type := VStr "dockable" |});
    [reflexivity | reflexivity | discriminate].
Defined.

Lemma request_round_trip_witness :
  ∃ st', sendRequestToCore demo_env (run demo_env 5) (VStr "getVersion")
           [VFun (FUser 0)] (init tt) = (st', Ok (VNum 1000)) ∧
         trace st' = [Requested 1000 (VStr "getVersion") [];
                      Replied 0 [VStr "1.2.3"];
                      Fired 1000 (FUser 0) [VStr "1.2.3"]] ∧
         _replyCallbacks st' = ∅ ∧
         _nextSessionId st' = 1001.
Proof.
  apply (request_round_trip demo_env 0 (VStr "getVersion") [] 0 [VStr "1.2.3"]
           (λ _ args, Do (Call (arg0 args) [VStr "1.2.3"]) (λ _, Done)) (init tt));
    try reflexivity.
  apply reachable_init.
Defined.

Lemma renderer_request_witness :
  ∃ st', run demo_env 4
           (THandle On_sendreq2core (SRenderer 12) [VStr "getVersion"; VNum 7; VArr []])
           (init tt) = (st', Ok tt) ∧
         trace st' = [Replied 0 [VStr "1.2.3"];
                      WebContentsSend 12
                        [VStr "editor:sendreq2core:reply"; VNum 7; VArr [VStr "1.2.3"]]] ∧
         _replyCallbacks st' = ∅ ∧
         _nextSessionId st' = 1000 ∧
         closures st' = [{| rc_sender := SRenderer 12; rc_message := VStr "getVersion";
                            rc_sessionId := VNum 7; called := true |}].
Proof.
  apply (renderer_request_is_answered demo_env 0 12 (VStr "getVersion") (VNum 7) []
           [VStr "1.2.3"] (λ _ args, Do (Call (arg0 args) [VStr "1.2.3"]) (λ _, Done))
           (init tt)); reflexivity.
Defined.

Lemma reply_functions_witness :
  ∃ st1 st2 st3,
    _replyCallback demo_env (run demo_env 3) 0 [VStr "a"] demo_two_unanswered = (st1, Ok tt) ∧
    _replyCallback demo_env (run demo_env 3) 1 [VStr "b"] st1 = (st2, Ok tt) ∧
    _replyCallback demo_env (run demo_env 3) 0 [VStr "a"] st2 = (st3, Ok tt) ∧
    trace st3 = trace demo_two_unanswered ++
      [Replied 0 [VStr "a"];
       WebContentsSend 11 [VStr "editor:sendreq2core:reply"; VNum 7; VArr [VStr "a"]];
       Replied 1 [VStr "b"];
       WebContentsSend 12 [VStr "editor:sendreq2core:reply"; VNum 7; VArr [VStr "b"]];
       Console_error (ReplyCalledTwice (VStr "nobody"))].
Proof.
  apply (reply_functions_are_independent demo_env (run demo_env 3) 0 1
           {| rc_sender := SRenderer 11; rc_message := VStr "nobody";
              rc_sessionId := VNum 7; called := false |}
           {| rc_sender := SRenderer 12; rc_message := VStr "nobody";
              rc_sessionId := VNum 7; called := false |}
           [VStr "a"] [VStr "b"] 11 12 demo_two_unanswered);
    first [discriminate | vm_compute; reflexivity].
Defined.

Lemma cancel_of_unknown_id_witness :
  cancelRequestToCore 1000 (init tt) = (init tt, Ok tt) ∧
  (sendRequestToCore demo_env (run demo_env 5) (VStr "getVersion") [VFun (FUser 0)]
     (cancelRequestToCore 1000 (init tt)).1).2 = Ok (VNum 1000).
Proof.
  destruct (cancel_of_unknown_id_is_a_no_op (init tt) 1000) as [E Hsame]; [reflexivity|].
  split; [exact E|].
  pose proof (Hsame demo_env (run demo_env 5) (VStr "getVersion") [] (FUser 0) eq_refl) as H.
  change ([] ++ [VFun (FUser 0)]) with [VFun (FUser 0)] in H. rewrite H.
  vm_compute. reflexivity.
Defined.

Lemma session_table_witness :
  reachable demo_env demo_pending ∧ pending demo_pending 1001 ∧
  1001 ∈ requested_ids demo_pending ∧ fired_count 1001 demo_pending = 0%nat.
Proof.
  assert (Hr : reachable demo_env demo_pending) by apply reachable_run_turns.
  assert (Hp : pending demo_pending 1001) by (exists (FUser 2); vm_compute; reflexivity).
  split; [exact Hr|]. split; [exact Hp|].
  exact (proj1 (session_table_bookkeeping demo_env demo_pending 1001 Hr) Hp).
Defined.

Lemma sendToAll_silent_witness :
  ∃ st', sendToAll demo_env (run demo_env 5) (VStr "nobody") [VStr "x"] (init tt)
           = (st', Ok tt) ∧
         only_adds (init tt) st'
           [SendToPage win1 [VStr "nobody"; VStr "x"];
            SendToPage win2 [VStr "nobody"; VStr "x"]].
Proof.
  apply (proj1 (sendToAll_is_silent_without_listener demo_env (run demo_env 5)
                  (VStr "nobody") [VStr "x"] (init tt)));
    [reflexivity | reflexivity | left; discriminate].
Defined.
